(** * GreenValue retrieval core: reranking and corrective filtering

    A shallow embedding of the Python retrieval pipeline of the repository:

    - [CrossEncoderReranker.__init__], [rerank] and [is_available]
      (rag/reranker, lines 29-83)
    - [CorrectiveRAG.check_relevance] and [CorrectiveRAG.filter_documents]
      (rag/reranker, lines 110-176)
    - [RetrievalEngine.__init__], [retrieve], [_flashrank_rerank] and
      [similarity_search] (retrieval engine, lines 36-144)

    [CorrectiveRAG.web_search_fallback] (an HTTP request and a regular
    expression over the page it returns) is not modelled.

    Documents are Python objects that the stages mutate in place, so they live
    in a store indexed by locations and the lists passed between stages are
    lists of locations.  Calls to the external collaborators (search index,
    FlashRank model, cross-encoder model, language model, parent expansion) are
    recorded in a trace; an exception is an outcome [Raise] that propagates
    through the calling code until a [try_except] handles it.  Logging calls
    are not modelled. *)

From Stdlib Require Import ZArith QArith Qround Qpower Lia Lqa List Floats String Ascii Sorted Permutation.
From stdpp Require Import gmap strings list.
Import ListNotations.

(** ** Python built-ins used by the pipeline *)

Module Py.

(** [l[:stop]]: a negative [stop] counts from the end of the list. *)
Definition slice_to {A : Type} (stop : Z) (l : list A) : list A :=
  if (0 <=? stop)%Z then take (Z.to_nat stop) l
  else take (length l - Z.to_nat (- stop)) l.

(** [l[i]]: a negative index counts from the end; [None] is [IndexError]. *)
Definition index {A : Type} (l : list A) (i : Z) : option A :=
  if (0 <=? i)%Z then l !! Z.to_nat i
  else if (- Z.of_nat (length l) <=? i)%Z then l !! Z.to_nat (Z.of_nat (length l) + i)
  else None.

(** [s[:n]] on a string, for the constant non-negative bounds of the source. *)
Fixpoint str_take (n : nat) (s : string) : string :=
  match n, s with
  | S n', String c s' => String c (str_take n' s')
  | _, _ => EmptyString
  end.

(** [str.isdigit] on ASCII characters: true of the characters 0-9 only.
    Characters are 8-bit here; Python's [str.isdigit] is also true of digits
    outside ASCII, so statements about parsing a reply are made for replies
    whose characters are ASCII. *)
Definition isdigit (c : ascii) : bool :=
  (48 <=? nat_of_ascii c)%nat && (nat_of_ascii c <=? 57)%nat.

Definition digit_value (c : ascii) : Z := Z.of_nat (nat_of_ascii c) - 48.

(** [filter(str.isdigit, s)], as the list of characters it yields. *)
Definition digits_of (s : string) : list ascii :=
  List.filter isdigit (list_ascii_of_string s).

(** [int(''.join(ds))] for a sequence of digit characters: the empty string
    raises [ValueError], here [None]. *)
Definition int_of_digits (ds : list ascii) : option Z :=
  match ds with
  | [] => None
  | _ => Some (fold_left (fun acc c => 10 * acc + digit_value c)%Z ds 0%Z)
  end.

(** [l.sort(key=..., reverse=True)].  Python's sort is stable and compares
    keys with [<] only; with [reverse=True] elements with equal keys keep
    their original order.  [lt x y] is [key(x) < key(y)].  Every stable sort
    gives the same list when [<] orders the keys; with a NaN among float keys
    it does not, and the order here can differ from CPython's. *)
Fixpoint insert_desc {A : Type} (lt : A -> A -> bool) (x : A) (l : list A) : list A :=
  match l with
  | [] => [x]
  | y :: l' => if lt x y then y :: insert_desc lt x l' else x :: y :: l'
  end.

Definition sort_desc {A : Type} (lt : A -> A -> bool) (l : list A) : list A :=
  foldr (insert_desc lt) [] l.

(** [zip(xs, ys)] stops at the shorter argument. *)
Fixpoint zip {A B : Type} (xs : list A) (ys : list B) : list (A * B) :=
  match xs, ys with
  | x :: xs', y :: ys' => (x, y) :: zip xs' ys'
  | _, _ => []
  end.

(** [enumerate(l)], with Python integers as indices. *)
Definition enumerate {A : Type} (l : list A) : list (Z * A) :=
  imap (fun i x => (Z.of_nat i, x)) l.

Definition is_nil {A : Type} (l : list A) : bool :=
  match l with [] => true | _ => false end.

Definition sum (l : list Z) : Z := fold_left Z.add l 0%Z.

End Py.

(** ** Python floats: IEEE 754 binary64, round to nearest, ties to even

    A finite float is modelled by the rational number it denotes.  An
    arithmetic operation computes the exact rational result and rounds it to
    the nearest binary64 value ([round64]).  Overflow is not modelled: the
    filter only divides a sum of scores in [0, 100] by their count and
    multiplies by 0.6, so every value it computes is at most 100. *)

Module Float64.
Local Open Scope Q_scope.

Definition prec : Z := 53.
Definition emin : Z := -1074.

Definition bpow (e : Z) : Q := 2 ^ e.

(** [floor (log2 x)] for a positive rational. *)
Definition ilog2 (x : Q) : Z :=
  let d := (Z.log2 (Qnum x) - Z.log2 (Zpos (Qden x)))%Z in
  if Qle_bool (bpow d) x then d else (d - 1)%Z.

(** Nearest integer, a tie going to the even one. *)
Definition rne (y : Q) : Z :=
  let f := Qfloor y in
  match Qcompare (y - inject_Z f) (1 # 2) with
  | Lt => f
  | Gt => (f + 1)%Z
  | Eq => if Z.even f then f else (f + 1)%Z
  end.

(** Exponent of the unit in the last place of [x]: 53 significant bits,
    and never below the exponent of the subnormal numbers. *)
Definition ulp_exp (x : Q) : Z := Z.max (ilog2 x - (prec - 1)) emin.

Definition round_pos (x : Q) : Q :=
  let e := ulp_exp x in
  Qred (inject_Z (rne (x * bpow (- e))) * bpow e).

Definition round64 (x : Q) : Q :=
  match Qcompare x 0 with
  | Eq => 0
  | Gt => round_pos x
  | Lt => - round_pos (- x)
  end.

(** [a / b] on Python integers: the correctly rounded quotient. *)
Definition true_div (a b : Z) : Q := round64 (inject_Z a / inject_Z b).

(** [x * y] on floats. *)
Definition fmul (x y : Q) : Q := round64 (x * y).

(** The literal [0.6]: the binary64 value nearest to 6/10. *)
Definition c06 : Q := 5404319552844595 # 9007199254740992.

(** [max(a, b)] for an integer [a] and a float [b]: Python returns [b] only
    when [b > a], and compares an integer with a float exactly. *)
Definition max_int_float (a : Z) (b : Q) : Q :=
  if Qle_bool b (inject_Z a) then inject_Z a else b.

(** [s >= t] for an integer [s] and a number [t], compared exactly. *)
Definition int_ge (s : Z) (t : Q) : bool := Qle_bool t (inject_Z s).

(** The rational denoted by a finite float of the kernel's binary64
    arithmetic, used to compare [round64] with the hardware operations. *)
Definition SF2Q (f : spec_float) : option Q :=
  match f with
  | S754_zero _ => Some 0
  | S754_finite s m e =>
      Some ((if s then - inject_Z (Zpos m) else inject_Z (Zpos m)) * bpow e)
  | _ => None
  end.

Definition Z2float (z : Z) : float := SF2Prim (binary_normalize 53 1024 z 0 false).

Definition float_value (f : float) : option Q := SF2Q (Prim2SF f).

(** The filter's threshold arithmetic [(S / n) * 0.6] on the kernel's floats. *)
Definition hw_scaled_mean (S n : Z) : float :=
  PrimFloat.mul (PrimFloat.div (Z2float S) (Z2float n)) (PrimFloat.div (Z2float 6) (Z2float 10)).

(** [round64] and the hardware agree on the threshold arithmetic for the sum
    [S] of [n] scores. *)
Definition agrees_with_hardware (S n : Z) : bool :=
  match float_value (hw_scaled_mean S n) with
  | Some q => Qeq_bool q (fmul (true_div S n) c06)
  | None => false
  end.

Definition Zrange (lo : Z) (len : nat) : list Z :=
  map (fun i => (lo + Z.of_nat i)%Z) (seq 0 len).

End Float64.

(** ** Documents, the store and the collaborators *)

Module Model.
Export Py.

(** A metadata value: the stages write a relevance score (an [int]) and a
    cross-encoder score (a [float]). *)
Inductive value : Type :=
| VInt (z : Z)
| VFloat (f : float)
| VStr (s : string).

Record Document : Type := mkDocument {
  page_content : string;
  metadata : gmap string value
}.

(** A reference to a [Document] object. *)
Definition loc : Type := nat.

(** Calls to the external collaborators, in the order they are made. *)
Inductive event : Type :=
| EvSearch (query : string) (category : option string) (top_k : Z)
| EvFlashRank (query : string) (passages : list (Z * string))
| EvPredict (pairs : list (string * string))
| EvLLM (prompt : string)
| EvExpand (docs : list loc).

Record world : Type := mkWorld {
  heap : gmap loc Document;
  trace : list event
}.

(** The result of a call: a value, or a raised [Exception]. *)
Inductive outcome (A : Type) : Type :=
| Ret (a : A)
| Raise.
Arguments Ret {A} a.
Arguments Raise {A}.

(** What the collaborators answer.  A model may answer the same input
    differently on different calls, so each answer depends on the calls made
    so far.  The search index and the parent expansion create documents, so
    they also return the store they leave behind. *)
Record collaborators : Type := mkCollaborators {
  retriever_invoke : world -> string -> option string -> Z ->
                     outcome (list loc) * gmap loc Document;
  flashrank_rerank : list event -> string -> list (Z * string) -> outcome (list Z);
  model_predict : list event -> list (string * string) -> outcome (list float);
  llm_invoke : list event -> string -> outcome string;
  expand_to_parents : world -> list loc -> outcome (list loc) * gmap loc Document
}.

(** *** Computations: state passing with exceptions *)

Definition M (A : Type) : Type := world -> outcome A * world.

Definition ret {A : Type} (a : A) : M A := fun w => (Ret a, w).

Definition raise {A : Type} : M A := fun w => (Raise, w).

Definition bind {A B : Type} (m : M A) (f : A -> M B) : M B :=
  fun w =>
    match m w with
    | (Ret a, w') => f a w'
    | (Raise, w') => (Raise, w')
    end.

(** [try: m except Exception: h].  The effects of [m] up to the exception
    stay. *)
Definition try_except {A : Type} (m : M A) (h : M A) : M A :=
  fun w =>
    match m w with
    | (Ret a, w') => (Ret a, w')
    | (Raise, w') => h w'
    end.

Definition gets {A : Type} (f : world -> A) : M A := fun w => (Ret (f w), w).

Notation "'let*' x ':=' m 'in' k" := (bind m (fun x => k))
  (at level 10, x name, m at level 100, k at level 200).
Notation "'do' m 'in' k" := (bind m (fun _ => k))
  (at level 10, m at level 100, k at level 200).

Fixpoint mapM {A B : Type} (f : A -> M B) (l : list A) : M (list B) :=
  match l with
  | [] => ret []
  | x :: l' => let* y := f x in let* ys := mapM f l' in ret (y :: ys)
  end.

Definition record (ev : event) (w : world) : world :=
  {| heap := heap w; trace := trace w ++ [ev] |}.

(** [doc.page_content] *)
Definition content (w : world) (doc : loc) : string :=
  match heap w !! doc with
  | Some d => page_content d
  | None => EmptyString
  end.

(** [doc.metadata[key] = v] *)
Definition set_metadata (doc : loc) (key : string) (v : value) : M unit :=
  fun w =>
    (Ret tt,
     {| heap := alter (fun d => {| page_content := page_content d;
                                   metadata := <[key := v]> (metadata d) |}) doc (heap w);
        trace := trace w |}).

Section Pipeline.
Variable C : collaborators.

Definition call_predict (pairs : list (string * string)) : M (list float) :=
  fun w => (model_predict C (trace w) pairs, record (EvPredict pairs) w).

Definition call_llm (prompt : string) : M string :=
  fun w => (llm_invoke C (trace w) prompt, record (EvLLM prompt) w).

Definition call_flashrank (query : string) (passages : list (Z * string)) : M (list Z) :=
  fun w => (flashrank_rerank C (trace w) query passages, record (EvFlashRank query passages) w).

Definition call_search (query : string) (category : option string) (top_k : Z) : M (list loc) :=
  fun w =>
    let '(r, h) := retriever_invoke C w query category top_k in
    (r, {| heap := h; trace := trace w ++ [EvSearch query category top_k] |}).

Definition call_expand (docs : list loc) : M (list loc) :=
  fun w =>
    let '(r, h) := expand_to_parents C w docs in
    (r, {| heap := h; trace := trace w ++ [EvExpand docs] |}).

(** *** CrossEncoderReranker *)

(** [available] is set once by the constructor, when the model loaded. *)
Record CrossEncoderReranker : Type := mkCrossEncoder {
  available : bool
}.

(** The pairs [rerank] sends to the model. *)
Definition pairs_of (query : string) (docs : list loc) (w : world) : list (string * string) :=
  map (fun doc => (query, str_take 500 (content w doc))) docs.

Definition score_lt (x y : loc * float) : bool := PrimFloat.ltb (snd x) (snd y).

Definition annotate (p : loc * float) : M loc :=
  do set_metadata (fst p) "cross_encoder_score" (VFloat (snd p)) in ret (fst p).

Definition rerank (self : CrossEncoderReranker) (query : string)
    (docs : list loc) (top_k : Z) : M (list loc) :=
  if negb (available self) || is_nil docs then ret (slice_to top_k docs)
  else
    let* pairs := gets (pairs_of query docs) in
    let* scores := call_predict pairs in
    let scored_docs := sort_desc score_lt (zip docs scores) in
    mapM annotate (slice_to top_k scored_docs).

(** *** CorrectiveRAG *)

Definition nl : string := String (ascii_of_nat 10) EmptyString.

Definition relevance_prompt (query content : string) : string :=
  ("Rate how relevant this document is to the question." ++ nl ++
   "Only respond with a number from 0-100." ++ nl ++ nl ++
   "QUESTION: " ++ str_take 200 query ++ nl ++
   "DOCUMENT: " ++ str_take 300 content ++ nl ++ nl ++
   "RELEVANCE SCORE (0-100):")%string.

(** The parse of a reply: [min(int(''.join(filter(str.isdigit, response[:5]))), 100)];
    [None] when [int] raises. *)
Definition parse_score (response : string) : option Z :=
  match int_of_digits (digits_of (str_take 5 response)) with
  | Some score => Some (Z.min score 100)
  | None => None
  end.

Definition check_relevance (query : string) (doc : loc) : M (bool * Z) :=
  let* page := gets (fun w => content w doc) in
  let prompt := relevance_prompt query page in
  try_except
    (let* response := call_llm prompt in
     match parse_score response with
     | Some score => ret ((25 <=? score)%Z, score)
     | None => raise
     end)
    (ret (true, 70%Z)).

(** The verdict [check_relevance] returns, by what the oracle call did. *)
Definition verdict_of (r : outcome string) : bool * Z :=
  match r with
  | Ret response =>
      match parse_score response with
      | Some score => ((25 <=? score)%Z, score)
      | None => (true, 70%Z)
      end
  | Raise => (true, 70%Z)
  end.

(** The prompt [check_relevance] sends for a document. *)
Definition asked (query : string) (doc : loc) (w : world) : string :=
  relevance_prompt query (content w doc).

(** The scoring loop of [filter_documents]. *)
Definition score_document (query : string) (doc : loc) : M (loc * Z) :=
  let* v := check_relevance query doc in
  do set_metadata doc "relevance_score" (VInt (snd v)) in
  ret (doc, snd v).

Definition score_documents (query : string) (docs : list loc) : M (list (loc * Z)) :=
  mapM (score_document query) docs.

(** [avg_score = sum(s for _, s in scored_docs) / len(scored_docs)] *)
Definition avg_score (scored_docs : list (loc * Z)) : Q :=
  Float64.true_div (sum (map snd scored_docs)) (Z.of_nat (length scored_docs)).

(** [dynamic_threshold = max(min_score, avg_score * 0.6)] *)
Definition dynamic_threshold (min_score : Z) (scored_docs : list (loc * Z)) : Q :=
  Float64.max_int_float min_score (Float64.fmul (avg_score scored_docs) Float64.c06).

(** [[doc for doc, score in scored_docs if score >= dynamic_threshold]] *)
Definition filter_by_threshold (min_score : Z) (scored_docs : list (loc * Z)) : list loc :=
  let t := dynamic_threshold min_score scored_docs in
  map fst (List.filter (fun p => Float64.int_ge (snd p) t) scored_docs).

Definition relevance_lt (x y : loc * Z) : bool := (snd x <? snd y)%Z.

(** The fallback: the two best documents, best first. *)
Definition top_two (scored_docs : list (loc * Z)) : list loc :=
  map fst (slice_to 2 (sort_desc relevance_lt scored_docs)).

(** [(S / n) * 0.6] in binary64, for the sum [S] of [n] scores. *)
Definition scaled_mean (S n : Z) : Q := Float64.fmul (Float64.true_div S n) Float64.c06.

(** Descending order on scored documents, and the documents with a given score. *)
Definition score_ge (a b : loc * Z) : Prop := (snd b <= snd a)%Z.

Definition has_score (k : Z) (p : loc * Z) : bool := (snd p =? k)%Z.

(** The same documents with every score raised by [delta]. *)
Definition shift_scores (delta : Z) (scored_docs : list (loc * Z)) : list (loc * Z) :=
  map (fun p => (fst p, (snd p + delta)%Z)) scored_docs.

(** Lines 161-176: threshold, filter, fallback. *)
Definition select_documents (min_score : Z) (scored_docs : list (loc * Z)) : list loc :=
  let filtered := filter_by_threshold min_score scored_docs in
  if is_nil filtered && negb (is_nil scored_docs) then top_two scored_docs
  else filtered.

Definition filter_documents (query : string) (docs : list loc) (min_score : Z) : M (list loc) :=
  if is_nil docs then ret docs
  else
    let* scored_docs := score_documents query docs in
    ret (select_documents min_score scored_docs).

(** *** RetrievalEngine *)

(** The world the search collaborator leaves behind. *)
Definition searched (query : string) (category : option string) (top_k : Z) (w : world) : world :=
  {| heap := snd (retriever_invoke C w query category top_k);
     trace := trace w ++ [EvSearch query category top_k] |}.

(** [flashrank] is [true] when the constructor loaded the FlashRank model
    (the attribute is not [None]); [top_k_rerank] is the field of [RAGConfig]
    that [retrieve] reads. *)
Record RetrievalEngine : Type := mkEngine {
  flashrank : bool;
  cross_encoder : CrossEncoderReranker;
  top_k_rerank : Z
}.

(** [[docs[i] for i in top_indices]]; an index out of range raises. *)
Definition pick (docs : list loc) (i : Z) : M loc :=
  match index docs i with
  | Some d => ret d
  | None => raise
  end.

(** The passages [_flashrank_rerank] sends to the model. *)
Definition passages_of (docs : list loc) (w : world) : list (Z * string) :=
  map (fun p => (fst p, content w (snd p))) (enumerate docs).

Definition _flashrank_rerank (self : RetrievalEngine) (query : string)
    (docs : list loc) (top_k : Z) : M (list loc) :=
  if negb (flashrank self) then ret docs
  else
    try_except
      (let* passages := gets (passages_of docs) in
       let* rerank_results := call_flashrank query passages in
       let top_indices := slice_to top_k rerank_results in
       mapM (pick docs) top_indices)
      (ret (slice_to top_k docs)).

Definition retrieve (self : RetrievalEngine) (query : string) (category : option string)
    (top_k : Z) (use_rerank use_parent : bool) : M (list loc) :=
  let* docs := call_search query category top_k in
  if is_nil docs then ret []
  else
    let* docs := (if use_rerank && flashrank self && (1 <? length docs)%nat
                  then _flashrank_rerank self query docs 5
                  else ret docs) in
    let* docs := (if use_rerank && available (cross_encoder self) && (1 <? length docs)%nat
                  then rerank (cross_encoder self) query docs (top_k_rerank self)
                  else ret docs) in
    let* docs := (if use_parent then call_expand docs else ret docs) in
    ret docs.

End Pipeline.
End Model.

(** ** The parsing policy in the words of the specification

    "The oracle's raw reply is scanned for the first run of digit characters
    within the first 5 characters of the reply." *)

Module SpecReading.
Import Model.

Fixpoint digit_run (cs : list ascii) : list ascii :=
  match cs with
  | c :: cs' => if isdigit c then c :: digit_run cs' else []
  | [] => []
  end.

Fixpoint first_digit_run (cs : list ascii) : list ascii :=
  match cs with
  | c :: cs' => if isdigit c then c :: digit_run cs' else first_digit_run cs'
  | [] => []
  end.

Definition first_run_score (response : string) : option Z :=
  match int_of_digits (first_digit_run (list_ascii_of_string (str_take 5 response))) with
  | Some score => Some (Z.min score 100)
  | None => None
  end.

Definition first_run_verdict (r : outcome string) : bool * Z :=
  match r with
  | Ret response =>
      match first_run_score response with
      | Some score => ((25 <=? score)%Z, score)
      | None => (true, 70%Z)
      end
  | Raise => (true, 70%Z)
  end.

End SpecReading.

(** ** Concrete collaborators and stores for the scenarios *)

Module Scenarios.
Import Model.

Definition doc_of (text : string) : Document :=
  {| page_content := text; metadata := ∅ |}.

(** A store holding one fresh document per text, at locations 0, 1, ... *)
Definition store_of (texts : list string) : gmap loc Document :=
  list_to_map (imap (fun i t => (i, doc_of t)) texts).

Definition world_of (texts : list string) : world :=
  {| heap := store_of texts; trace := [] |}.

Definition is_llm_call (ev : event) : bool :=
  match ev with EvLLM _ => true | _ => false end.

(** A language model that answers its k-th call with the k-th reply of a
    script, and raises once the script is exhausted. *)
Definition scripted_llm (replies : list (outcome string)) (tr : list event) (_ : string)
  : outcome string :=
  nth (length (List.filter is_llm_call tr)) replies Raise.

(** Collaborators given by what each one answers, whatever it is asked. *)
Definition scripted (found : list loc) (flash : outcome (list Z))
    (scores : outcome (list float)) (replies : list (outcome string)) : collaborators :=
  {| retriever_invoke := fun w _ _ _ => (Ret found, heap w);
     flashrank_rerank := fun _ _ _ => flash;
     model_predict := fun _ _ => scores;
     llm_invoke := scripted_llm replies;
     expand_to_parents := fun w docs => (Ret docs, heap w) |}.

(** An oracle alone: the other collaborators are not called by the filter. *)
Definition oracle (replies : list string) : collaborators :=
  scripted [] Raise Raise (map Ret replies).

Definition texts3 : list string := ["alpha"; "beta"; "gamma"]%string.
Definition texts5 : list string := ["alpha"; "beta"; "gamma"; "delta"; "epsilon"]%string.
Definition texts6 : list string :=
  ["alpha"; "beta"; "gamma"; "delta"; "epsilon"; "zeta"]%string.

(** Scenario A of the specification: scores 90, 85, 10, 5, 50. *)
Definition scenario_A : list (loc * Z) :=
  [(0, 90%Z); (1, 85%Z); (2, 10%Z); (3, 5%Z); (4, 50%Z)].

End Scenarios.

(** ** Constructors and the plain search *)

Module Engine.
Import Model.

(** [CrossEncoderReranker.__init__] (reranker, lines 29-40).
    [CROSS_ENCODER_AVAILABLE] is the module flag set by the import of
    sentence-transformers; [load] is what [CrossEncoder(model_name)] does.
    The constructor catches a load that raises. *)
Definition CrossEncoderReranker_init (CROSS_ENCODER_AVAILABLE : bool) (load : outcome unit)
  : CrossEncoderReranker :=
  if CROSS_ENCODER_AVAILABLE then
    match load with
    | Ret _ => {| available := true |}
    | Raise => {| available := false |}
    end
  else {| available := false |}.

(** [CrossEncoderReranker.is_available] *)
Definition is_available (self : CrossEncoderReranker) : bool := available self.

(** [RetrievalEngine.__init__] (retrieval engine, lines 36-53).
    [FLASHRANK_AVAILABLE] is the module flag set by the import of flashrank,
    [load_ranker] is what [Ranker(model_name=...)] does; [rag_top_k_rerank]
    is the [top_k_rerank] field of the configuration the engine ends up with
    ([config or RAGConfig()]). *)
Definition RetrievalEngine_init (FLASHRANK_AVAILABLE : bool) (load_ranker : outcome unit)
    (CROSS_ENCODER_AVAILABLE : bool) (load_cross_encoder : outcome unit)
    (rag_top_k_rerank : Z) : RetrievalEngine :=
  {| flashrank :=
       if FLASHRANK_AVAILABLE then
         match load_ranker with Ret _ => true | Raise => false end
       else false;
     cross_encoder := CrossEncoderReranker_init CROSS_ENCODER_AVAILABLE load_cross_encoder;
     top_k_rerank := rag_top_k_rerank |}.

(** [RetrievalEngine.similarity_search] (lines 137-144): the retriever for
    [top_k = k], invoked on the query.  [default_category] is the default of
    the store's [category_filter] parameter, which the call leaves out. *)
Definition similarity_search (C : collaborators) (default_category : option string)
    (query : string) (k : Z) : M (list loc) :=
  call_search C query default_category k.

(** [str(n)] for a non-negative integer: its decimal digits. *)
Definition digit_char (d : Z) : ascii := ascii_of_nat (48 + Z.to_nat d).

Fixpoint decimal_digits (fuel : nat) (n : Z) (acc : string) : string :=
  match fuel with
  | O => acc
  | S fuel' =>
      let acc' := String (digit_char (n mod 10)) acc in
      if (n <? 10)%Z then acc' else decimal_digits fuel' (n / 10) acc'
  end.

Definition str_of_int (n : Z) : string :=
  decimal_digits (S (Z.to_nat (Z.log2 n))) n EmptyString.

(** The digits of [str(n)], read back and clamped, for every [n] below 1000. *)
Definition reads_back (n : Z) : bool :=
  (String.length (str_of_int n) <=? 5)%nat &&
  match int_of_digits (digits_of (str_of_int n)) with
  | Some m => (m =? n)%Z
  | None => false
  end.

(** A string none of whose first five characters is a digit. *)
Definition no_digit_ahead (s : string) : Prop := digits_of (str_take 5 s) = [].

(** The metadata key each stage writes. *)
Definition relevance_key : string := "relevance_score".
Definition cross_encoder_key : string := "cross_encoder_score".

(** [doc] after [doc.metadata[key] = v]. *)
Definition with_metadata (key : string) (v : value) (doc : Document) : Document :=
  {| page_content := page_content doc; metadata := <[key := v]> (metadata doc) |}.

(** No returned document is directly followed by one with a higher score. *)
Definition not_below (a b : loc * float) : Prop := PrimFloat.ltb (snd a) (snd b) = false.

End Engine.

(** ** ASCII replies and the order of float scores *)

Module Order.
Import Model.

(** A reply whose characters are all ASCII: there [str.isdigit] is true of
    the characters 0-9 only, which is what [isdigit] decides. *)
Definition is_ascii (s : string) : Prop :=
  forallb (fun c => (nat_of_ascii c <? 128)%nat) (list_ascii_of_string s) = true.

(** A float that is not NaN: the only floats that are not equal to
    themselves are the NaNs. *)
Definition not_nan (f : float) : Prop := PrimFloat.eqb f f = true.

(** [a] is at or above [b]: descending order of the cross-encoder scores. *)
Definition fscore_ge (a b : loc * float) : Prop := PrimFloat.leb (snd b) (snd a) = true.

(** The pairs whose score equals [s] (Python's [==]). *)
Definition has_fscore (s : float) (p : loc * float) : bool := PrimFloat.eqb (snd p) s.

(** The place of a float that is not NaN in the order of the floats: its
    class (infinities, negative, zero, positive), then exponent and mantissa. *)
Definition rank (f : spec_float) : Z * Z * Z :=
  match f with
  | S754_infinity true => (-2, 0, 0)%Z
  | S754_finite true m e => (-1, - e, - Zpos m)%Z
  | S754_zero _ => (0, 0, 0)%Z
  | S754_nan => (0, 0, 0)%Z
  | S754_finite false m e => (1, e, Zpos m)%Z
  | S754_infinity false => (2, 0, 0)%Z
  end.

Definition lexcmp (a b : Z * Z * Z) : comparison :=
  match (fst (fst a) ?= fst (fst b))%Z with
  | Eq => match (snd (fst a) ?= snd (fst b))%Z with
          | Eq => (snd a ?= snd b)%Z
          | c => c
          end
  | c => c
  end.

(** Every pair carries a score that is not NaN. *)
Definition all_scored (l : list (loc * float)) : Prop := Forall (fun p => not_nan (snd p)) l.

Definition key (p : loc * float) : Z * Z * Z := rank (Prim2SF (snd p)).

End Order.

(** * Properties *)

(** ** Rounding to binary64 *)

Module Float64Facts.
Import Float64.
Local Open Scope Q_scope.

Lemma bpow_pos e : 0 < bpow e.
Proof. apply Qpower_0_lt. reflexivity. Qed.

Lemma bpow_add a b : bpow (a + b) == bpow a * bpow b.
Proof. apply Qpower_plus. discriminate. Qed.

Lemma bpow_le a b : (a <= b)%Z -> bpow a <= bpow b.
Proof. intros H. apply Qpower_le_compat_l; [exact H | discriminate]. Qed.

Lemma bpow_lt a b : (a < b)%Z -> bpow a < bpow b.
Proof. intros H. apply Qpower_lt_compat_l; [exact H | reflexivity]. Qed.

Lemma bpow_Z k : (0 <= k)%Z -> inject_Z (2 ^ k) == bpow k.
Proof. intros H. apply Zpower_Qpower. exact H. Qed.

Lemma bpow_cancel e : bpow e * bpow (- e) == 1.
Proof. rewrite <- bpow_add. replace (e + - e)%Z with 0%Z by lia. reflexivity. Qed.

Lemma bpow_succ e : bpow (e + 1) == 2 * bpow e.
Proof. rewrite bpow_add. change (bpow 1) with 2. ring. Qed.

Lemma Z_log2_bounds p : (0 < p)%Z ->
  bpow (Z.log2 p) <= inject_Z p /\ inject_Z p < bpow (Z.log2 p + 1).
Proof.
  intros Hp. destruct (Z.log2_spec p Hp) as [Hlo Hhi].
  pose proof (Z.log2_nonneg p) as Hnn.
  split.
  - rewrite <- bpow_Z by lia. rewrite <- Zle_Qle. exact Hlo.
  - rewrite <- bpow_Z by lia. rewrite <- Zlt_Qlt. replace (Z.log2 p + 1)%Z with (Z.succ (Z.log2 p)) by lia. exact Hhi.
Qed.

Lemma ilog2_spec x : 0 < x -> bpow (ilog2 x) <= x /\ x < bpow (ilog2 x + 1).
Proof.
  intros Hx. unfold ilog2.
  destruct x as [p q]. cbn [Qnum Qden].
  assert (Hp : (0 < p)%Z).
  { unfold Qlt in Hx. cbn in Hx. lia. }
  destruct (Z_log2_bounds p Hp) as [Hp1 Hp2].
  destruct (Z_log2_bounds (Zpos q) eq_refl) as [Hq1 Hq2].
  set (lp := Z.log2 p) in *. set (lq := Z.log2 (Zpos q)) in *.
  assert (Hx' : (p # q) * inject_Z (Zpos q) == inject_Z p).
  { unfold Qeq, Qmult, inject_Z. cbn. lia. }
  assert (Hqpos : 0 < inject_Z (Zpos q)) by (unfold Qlt; cbn; lia).
  pose proof (bpow_pos lq) as Hb1.
  destruct (Qle_bool (bpow (lp - lq)) (p # q)) eqn:E.
  - apply Qle_bool_iff in E. split; [exact E|].
    pose proof (bpow_pos (lp - lq + 1)) as Hb2.
    assert (Hd : bpow (lp + 1) == bpow (lp - lq + 1) * bpow lq).
    { rewrite <- bpow_add. replace (lp - lq + 1 + lq)%Z with (lp + 1)%Z by lia. reflexivity. }
    rewrite Hd in Hp2.
    generalize dependent (bpow (lp - lq + 1)). generalize dependent (bpow lq).
    generalize dependent (inject_Z (Zpos q)). generalize dependent (inject_Z p).
    intros; nra.
  - assert (E' : p # q < bpow (lp - lq)).
    { apply Qnot_le_lt. intros H. apply Qle_bool_iff in H. congruence. }
    replace (lp - lq - 1 + 1)%Z with (lp - lq)%Z by lia. split; [|exact E'].
    pose proof (bpow_pos (lp - lq - 1)) as Hb2.
    assert (Hd : bpow lp == bpow (lp - lq - 1) * bpow (lq + 1)).
    { rewrite <- bpow_add. replace (lp - lq - 1 + (lq + 1))%Z with lp by lia. reflexivity. }
    rewrite Hd in Hp1.
    generalize dependent (bpow (lp - lq - 1)). generalize dependent (bpow (lq + 1)).
    generalize dependent (inject_Z (Zpos q)). generalize dependent (inject_Z p).
    intros; nra.
Qed.

Lemma bpow_lt_inv a b : bpow a < bpow b -> (a < b)%Z.
Proof.
  intros H. destruct (Z_lt_le_dec a b) as [Hlt|Hge]; [exact Hlt|].
  apply bpow_le in Hge. lra.
Qed.

Lemma ilog2_unique x L : bpow L <= x -> x < bpow (L + 1) -> ilog2 x = L.
Proof.
  intros H1 H2.
  assert (Hx : 0 < x) by (pose proof (bpow_pos L); lra).
  destruct (ilog2_spec x Hx) as [H3 H4].
  assert (L < ilog2 x + 1)%Z by (apply bpow_lt_inv; lra).
  assert (ilog2 x < L + 1)%Z by (apply bpow_lt_inv; lra).
  lia.
Qed.

Lemma ilog2_mono x y : 0 < x -> x <= y -> (ilog2 x <= ilog2 y)%Z.
Proof.
  intros Hx Hxy.
  destruct (ilog2_spec x Hx) as [H1 H2].
  destruct (ilog2_spec y ltac:(lra)) as [H3 H4].
  assert (ilog2 x < ilog2 y + 1)%Z by (apply bpow_lt_inv; lra).
  lia.
Qed.

Lemma ilog2_lt_bpow x k : 0 < x -> x < bpow k -> (ilog2 x < k)%Z.
Proof.
  intros Hx H. destruct (ilog2_spec x Hx) as [H1 _].
  apply bpow_lt_inv. lra.
Qed.

Ltac qcmp H :=
  first [ apply (proj2 (Qeq_alt _ _)) in H
        | apply (proj2 (Qlt_alt _ _)) in H
        | apply (proj2 (Qgt_alt _ _)) in H ].

(** Round half to even on rationals. *)
Lemma rne_cases y :
  let f := Qfloor y in
  inject_Z f <= y /\ y < inject_Z f + 1 /\
  ((y - inject_Z f < 1 # 2 /\ rne y = f) \/
   (1 # 2 < y - inject_Z f /\ rne y = (f + 1)%Z) \/
   (y - inject_Z f == 1 # 2 /\ (rne y = f \/ rne y = (f + 1)%Z))).
Proof.
  intros f. pose proof (Qfloor_le y) as H1. pose proof (Qlt_floor y) as H2.
  fold f in H1, H2. rewrite inject_Z_plus in H2. change (inject_Z 1) with 1 in H2.
  split; [exact H1|]. split; [exact H2|].
  unfold rne. fold f.
  destruct (Qcompare (y - inject_Z f) (1 # 2)) eqn:E.
  - apply Qeq_alt in E. right; right. split; [exact E|]. destruct (Z.even f); auto.
  - apply Qlt_alt in E. left. auto.
  - apply Qgt_alt in E. right; left. auto.
Qed.

Lemma rne_error y : inject_Z (rne y) - y <= 1 # 2 /\ y - inject_Z (rne y) <= 1 # 2.
Proof.
  destruct (rne_cases y) as (H1 & H2 & [[H3 ->]|[[H3 ->]|[H3 [-> | ->]]]]);
    rewrite ?inject_Z_plus; change (inject_Z 1) with 1; lra.
Qed.

Lemma rne_Z k : rne (inject_Z k) = k.
Proof.
  unfold rne. rewrite Qfloor_Z.
  assert (E : Qcompare (inject_Z k - inject_Z k) (1 # 2) = Lt).
  { apply (proj1 (Qlt_alt _ _)). lra. }
  rewrite E. reflexivity.
Qed.

Lemma rne_eq_Z y k : y == inject_Z k -> rne y = k.
Proof.
  intros H. unfold rne.
  assert (Hf : Qfloor y = k) by (rewrite H; apply Qfloor_Z).
  rewrite Hf.
  assert (E : Qcompare (y - inject_Z k) (1 # 2) = Lt).
  { apply (proj1 (Qlt_alt _ _)). lra. }
  rewrite E. reflexivity.
Qed.

Lemma rne_mono x y : x <= y -> (rne x <= rne y)%Z.
Proof.
  intros Hxy.
  pose proof (Qfloor_resp_le x y Hxy) as Hf.
  destruct (Z.eq_dec (Qfloor x) (Qfloor y)) as [Heq|Hne].
  - unfold rne. rewrite Heq.
    destruct (Qcompare (x - inject_Z (Qfloor y)) (1 # 2)) eqn:Ex;
    destruct (Qcompare (y - inject_Z (Qfloor y)) (1 # 2)) eqn:Ey;
    qcmp Ex; qcmp Ey; try (destruct (Z.even (Qfloor y))); try lia; exfalso; lra.
  - assert (Hlt : (Qfloor x + 1 <= Qfloor y)%Z) by lia.
    destruct (rne_cases x) as (_ & _ & Hx). destruct (rne_cases y) as (_ & _ & Hy).
    cbv zeta in Hx, Hy.
    assert (rne x <= Qfloor x + 1)%Z by (destruct Hx as [[_ ->]|[[_ ->]|[_ [-> | ->]]]]; lia).
    assert (Qfloor y <= rne y)%Z by (destruct Hy as [[_ ->]|[[_ ->]|[_ [-> | ->]]]]; lia).
    lia.
Qed.

Lemma rne_ge_Z k y : inject_Z k <= y -> (k <= rne y)%Z.
Proof. intros H. rewrite <- (rne_Z k). apply rne_mono. exact H. Qed.

Lemma rne_le_Z k y : y <= inject_Z k -> (rne y <= k)%Z.
Proof. intros H. rewrite <- (rne_Z k). apply rne_mono. exact H. Qed.

Lemma scale_lt x e k : x < bpow (e + k) -> x * bpow (- e) < bpow k.
Proof.
  intros H. rewrite bpow_add in H.
  pose proof (bpow_cancel e) as Hc. pose proof (bpow_pos e) as H1.
  pose proof (bpow_pos (- e)) as H2. pose proof (bpow_pos k) as H3.
  generalize dependent (bpow (- e)). generalize dependent (bpow e).
  generalize dependent (bpow k). intros; nra.
Qed.

Lemma scale_le x e k : bpow (e + k) <= x -> bpow k <= x * bpow (- e).
Proof.
  intros H. rewrite bpow_add in H.
  pose proof (bpow_cancel e) as Hc. pose proof (bpow_pos e) as H1.
  pose proof (bpow_pos (- e)) as H2. pose proof (bpow_pos k) as H3.
  generalize dependent (bpow (- e)). generalize dependent (bpow e).
  generalize dependent (bpow k). intros; nra.
Qed.

Lemma round_pos_eq x :
  round_pos x == inject_Z (rne (x * bpow (- ulp_exp x))) * bpow (ulp_exp x).
Proof. unfold round_pos. apply Qred_correct. Qed.

Lemma ulp_exp_mono x y : 0 < x -> x <= y -> (ulp_exp x <= ulp_exp y)%Z.
Proof.
  intros Hx Hxy. unfold ulp_exp. pose proof (ilog2_mono x y Hx Hxy). lia.
Qed.

Lemma round_pos_mono x y : 0 < x -> x <= y -> round_pos x <= round_pos y.
Proof.
  intros Hx Hxy. rewrite !round_pos_eq.
  pose proof (ulp_exp_mono x y Hx Hxy) as He.
  destruct (Z.eq_dec (ulp_exp x) (ulp_exp y)) as [Heq|Hne].
  - rewrite Heq. set (e := ulp_exp y).
    assert (Hm : (rne (x * bpow (- e)) <= rne (y * bpow (- e)))%Z).
    { apply rne_mono. pose proof (bpow_pos (- e)). nra. }
    rewrite Zle_Qle in Hm. pose proof (bpow_pos e). nra.
  - set (ex := ulp_exp x) in *. set (ey := ulp_exp y) in *.
    assert (Hy : 0 < y) by lra.
    destruct (ilog2_spec x Hx) as [_ Hx2]. destruct (ilog2_spec y Hy) as [Hy1 _].
    assert (Hmx : (rne (x * bpow (- ex)) <= 2 ^ 53)%Z).
    { apply rne_le_Z. rewrite bpow_Z by lia. apply Qlt_le_weak, scale_lt.
      eapply Qlt_le_trans; [exact Hx2|]. apply bpow_le. unfold ex, ulp_exp, prec. lia. }
    assert (Hmy : (2 ^ 52 <= rne (y * bpow (- ey)))%Z).
    { apply rne_ge_Z. rewrite bpow_Z by lia. apply scale_le.
      eapply Qle_trans; [|exact Hy1]. apply bpow_le.
      unfold ex, ey, ulp_exp, prec in *. lia. }
    rewrite Zle_Qle in Hmx, Hmy.
    rewrite bpow_Z in Hmx, Hmy by lia.
    assert (Hb : bpow 53 * bpow ex <= bpow 52 * bpow ey).
    { rewrite <- !bpow_add. apply bpow_le. lia. }
    pose proof (bpow_pos ex). pose proof (bpow_pos ey).
    generalize dependent (bpow 53). generalize dependent (bpow 52).
    intros. nra.
Qed.

Lemma round_pos_nonneg x : 0 < x -> 0 <= round_pos x.
Proof.
  intros Hx. rewrite round_pos_eq.
  assert (H : (0 <= rne (x * bpow (- ulp_exp x)))%Z).
  { apply rne_ge_Z. pose proof (bpow_pos (- ulp_exp x)). change (inject_Z 0) with 0. nra. }
  rewrite Zle_Qle in H. change (inject_Z 0) with 0 in H.
  pose proof (bpow_pos (ulp_exp x)). nra.
Qed.

Lemma round64_pos x : 0 < x -> round64 x = round_pos x.
Proof.
  intros H. unfold round64. apply (proj1 (Qgt_alt _ _)) in H. rewrite H. reflexivity.
Qed.

Lemma round64_zero x : x == 0 -> round64 x = 0.
Proof.
  intros H. unfold round64. apply (proj1 (Qeq_alt _ _)) in H. rewrite H. reflexivity.
Qed.

Lemma round64_nonneg x : 0 <= x -> 0 <= round64 x.
Proof.
  intros H. destruct (Qlt_le_dec 0 x) as [Hp|Hz].
  - rewrite round64_pos by exact Hp. apply round_pos_nonneg. exact Hp.
  - rewrite round64_zero by lra. lra.
Qed.

(** Rounding to nearest is monotone (on the non-negative values the filter computes with). *)
Lemma round64_mono x y : 0 <= x -> x <= y -> round64 x <= round64 y.
Proof.
  intros Hx Hxy. destruct (Qlt_le_dec 0 x) as [Hp|Hz].
  - rewrite (round64_pos x Hp), (round64_pos y) by lra. apply round_pos_mono; assumption.
  - rewrite (round64_zero x) by lra. apply round64_nonneg. lra.
Qed.

(** Integers below 2^53 are binary64 values: rounding leaves them unchanged. *)
Lemma round64_Z k : (0 <= k < 2 ^ 53)%Z -> round64 (inject_Z k) == inject_Z k.
Proof.
  intros [H0 Hk]. destruct (Z.eq_dec k 0%Z) as [->|Hne]; [reflexivity|].
  assert (Hpos : 0 < inject_Z k) by (change 0 with (inject_Z 0); rewrite <- Zlt_Qlt; lia).
  rewrite round64_pos by exact Hpos. rewrite round_pos_eq.
  set (e := ulp_exp (inject_Z k)).
  assert (He : (e <= 0)%Z).
  { assert (ilog2 (inject_Z k) < 53)%Z.
    { apply ilog2_lt_bpow; [exact Hpos|]. rewrite <- bpow_Z by lia. rewrite <- Zlt_Qlt. exact Hk. }
    unfold e, ulp_exp, prec, emin. lia. }
  assert (Hs : inject_Z k * bpow (- e) == inject_Z (k * 2 ^ (- e))).
  { rewrite inject_Z_mult, bpow_Z by lia. reflexivity. }
  rewrite (rne_eq_Z _ _ Hs). rewrite inject_Z_mult, bpow_Z by lia.
  pose proof (bpow_cancel e) as Hc. rewrite <- Qmult_assoc, (Qmult_comm (bpow (- e))), Hc. ring.
Qed.

(** Below 128 a binary64 value is within 2^-47 of the number it rounds. *)
Lemma round64_error x : 0 <= x -> x < bpow 7 ->
  round64 x - x <= bpow (-47) /\ x - round64 x <= bpow (-47).
Proof.
  intros H0 H7. pose proof (bpow_pos (-47)) as Hb. destruct (Qlt_le_dec 0 x) as [Hp|Hz].
  2:{ rewrite round64_zero by lra. lra. }
  rewrite round64_pos by exact Hp. rewrite round_pos_eq.
  set (e := ulp_exp x).
  assert (He : (e <= -46)%Z).
  { pose proof (ilog2_lt_bpow x 7 Hp H7). unfold e, ulp_exp, prec, emin. lia. }
  destruct (rne_error (x * bpow (- e))) as [E1 E2].
  pose proof (bpow_cancel e) as Hc. pose proof (bpow_pos e) as Hpe. pose proof (bpow_pos (- e)) as Hpn.
  assert (Hle : bpow e <= 2 * bpow (-47)).
  { rewrite <- bpow_succ. apply bpow_le. lia. }
  generalize dependent (rne (x * bpow (- e))). intros m E1 E2.
  generalize dependent (bpow (- e)). generalize dependent (bpow e). generalize dependent (bpow (-47)).
  intros. split; nra.
Qed.

Lemma c06_is_literal : round64 (6 # 10) = c06.
Proof. vm_compute. reflexivity. Qed.

Lemma c06_bounds : 0 < c06 /\ c06 < 6 # 10.
Proof. split; reflexivity. Qed.

(** The kernel's binary64 arithmetic computes the same scaled mean as
    [round64], for every possible sum of up to 8 scores in [0, 100]. *)
Lemma round64_agrees_with_hardware :
  forallb (fun n => forallb (fun S => agrees_with_hardware S n)
                            (Zrange 0 (Z.to_nat (100 * n + 1))))
          (Zrange 1 8) = true.
Proof. vm_compute. reflexivity. Qed.

End Float64Facts.

(** ** The pipeline *)

Module PipelineFacts.
Import Model.

(** *** Parsing an oracle reply *)

Lemma isdigit_value c : isdigit c = true -> (0 <= digit_value c <= 9)%Z.
Proof.
  unfold isdigit, digit_value. intros H.
  apply andb_prop in H as [H1 H2].
  apply Nat.leb_le in H1, H2. lia.
Qed.

Lemma fold_digits_nonneg ds acc :
  Forall (fun c => isdigit c = true) ds -> (0 <= acc)%Z ->
  (0 <= fold_left (fun a c => 10 * a + digit_value c) ds acc)%Z.
Proof.
  intros H. revert acc. induction H as [|c ds Hc _ IH]; intros acc Hacc; cbn.
  - exact Hacc.
  - apply IH. pose proof (isdigit_value c Hc). lia.
Qed.

Lemma digits_of_isdigit s : Forall (fun c => isdigit c = true) (digits_of s).
Proof.
  unfold digits_of. apply List.Forall_forall. intros c Hc.
  apply List.filter_In in Hc. tauto.
Qed.

Lemma parse_score_range response score :
  parse_score response = Some score -> (0 <= score <= 100)%Z.
Proof.
  unfold parse_score, int_of_digits.
  pose proof (digits_of_isdigit (str_take 5 response)) as Hd.
  destruct (digits_of (str_take 5 response)) as [|c ds] eqn:E; [discriminate|].
  intros [= <-].
  pose proof (fold_digits_nonneg (c :: ds) 0 Hd ltac:(lia)) as H. cbn [fold_left] in H. lia.
Qed.

Lemma parse_score_no_digits response :
  digits_of (str_take 5 response) = [] -> parse_score response = None.
Proof. unfold parse_score. intros ->. reflexivity. Qed.

Lemma verdict_of_range r : (0 <= snd (verdict_of r) <= 100)%Z.
Proof.
  unfold verdict_of. destruct r as [response|]; cbn; [|lia].
  destruct (parse_score response) as [score|] eqn:E; cbn; [|lia].
  exact (parse_score_range _ _ E).
Qed.

Lemma verdict_of_relevant r : fst (verdict_of r) = (25 <=? snd (verdict_of r))%Z.
Proof.
  unfold verdict_of. destruct r as [response|]; cbn; [|reflexivity].
  destruct (parse_score response); reflexivity.
Qed.

(** *** Running computations *)

Lemma bind_run {A B : Type} (m : M A) (f : A -> M B) w a w' :
  m w = (Ret a, w') -> bind m f w = f a w'.
Proof. unfold bind. intros ->. reflexivity. Qed.

Lemma bind_raise {A B : Type} (m : M A) (f : A -> M B) w w' :
  m w = (Raise, w') -> bind m f w = (Raise, w').
Proof. unfold bind. intros ->. reflexivity. Qed.

Lemma try_except_run {A : Type} (m h : M A) w a w' :
  m w = (Ret a, w') -> try_except m h w = (Ret a, w').
Proof. unfold try_except. intros ->. reflexivity. Qed.

Lemma try_except_raise {A : Type} (m h : M A) w w' :
  m w = (Raise, w') -> try_except m h w = h w'.
Proof. unfold try_except. intros ->. reflexivity. Qed.

Lemma run_fst {A : Type} (m : M A) w a :
  fst (m w) = Ret a -> m w = (Ret a, snd (m w)).
Proof. destruct (m w) as [r w']. cbn. intros ->. reflexivity. Qed.

(** *** Running the relevance check *)

Section Runs.
Variable C : collaborators.

Lemma check_relevance_run query doc w :
  check_relevance C query doc w =
    (Ret (verdict_of (llm_invoke C (trace w) (asked query doc w))),
     record (EvLLM (asked query doc w)) w).
Proof.
  unfold check_relevance, bind, gets, try_except, call_llm, verdict_of, asked, ret, raise.
  destruct (llm_invoke C (trace w) _) as [response|]; [|reflexivity].
  destruct (parse_score response); reflexivity.
Qed.


Lemma score_document_run query doc w :
  score_document C query doc w =
    (Ret (doc, snd (verdict_of (llm_invoke C (trace w) (asked query doc w)))),
     snd (set_metadata doc "relevance_score"
            (VInt (snd (verdict_of (llm_invoke C (trace w) (asked query doc w)))))
            (record (EvLLM (asked query doc w)) w))).
Proof.
  unfold score_document, bind. rewrite check_relevance_run. reflexivity.
Qed.

(** The scoring loop never raises: it returns one score in [0, 100] per
    document, in input order. *)
Lemma score_documents_run query docs w :
  exists scored w',
    score_documents C query docs w = (Ret scored, w') /\
    map fst scored = docs /\
    Forall (fun p => (0 <= snd p <= 100)%Z) scored.
Proof.
  revert w. induction docs as [|doc docs IH]; intros w.
  - exists [], w. repeat split; constructor.
  - unfold score_documents. cbn [mapM].
    rewrite (bind_run _ _ _ _ _ (score_document_run query doc w)).
    match goal with |- context [mapM _ docs] =>
      match goal with |- context [bind _ _ ?w1] =>
        destruct (IH w1) as (scored & w' & Hrun & Hfst & Hrange) end end.
    unfold score_documents in Hrun. rewrite (bind_run _ _ _ _ _ Hrun).
    eexists _, w'. split; [reflexivity|]. split.
    + cbn. rewrite Hfst. reflexivity.
    + constructor; [apply verdict_of_range | exact Hrange].
Qed.

Lemma filter_documents_run query docs min_score w :
  docs <> [] ->
  exists scored w',
    score_documents C query docs w = (Ret scored, w') /\
    map fst scored = docs /\
    Forall (fun p => (0 <= snd p <= 100)%Z) scored /\
    filter_documents C query docs min_score w = (Ret (select_documents min_score scored), w').
Proof.
  intros Hne. destruct (score_documents_run query docs w) as (scored & w' & Hrun & Hfst & Hrange).
  exists scored, w'. repeat split; try assumption.
  unfold filter_documents. destruct docs; [congruence|]. cbn [is_nil].
  rewrite (bind_run _ _ _ _ _ Hrun). reflexivity.
Qed.

Lemma mapM_annotate_run l w :
  fst (mapM annotate l w) = Ret (map fst l).
Proof.
  revert w. induction l as [|p l IH]; intros w; [reflexivity|].
  cbn [mapM].
  assert (Ha : annotate p w = (Ret (fst p), snd (annotate p w))) by reflexivity.
  rewrite (bind_run _ _ _ _ _ Ha). specialize (IH (snd (annotate p w))).
  destruct (mapM annotate l (snd (annotate p w))) as [r w2] eqn:E.
  cbn in IH. subst r. rewrite (bind_run _ _ _ _ _ E). reflexivity.
Qed.

End Runs.
End PipelineFacts.

(** ** Sorting and slicing *)

Module ListFacts.
Import Model.

Section Sort.
Context {A : Type} (lt : A -> A -> bool).

Lemma insert_desc_perm x l : Permutation (insert_desc lt x l) (x :: l).
Proof.
  induction l as [|y l IH]; cbn; [reflexivity|].
  destruct (lt x y); [|reflexivity].
  rewrite IH. apply perm_swap.
Qed.

Lemma sort_desc_perm l : Permutation (sort_desc lt l) l.
Proof.
  induction l as [|x l IH]; cbn; [reflexivity|].
  rewrite insert_desc_perm. constructor. exact IH.
Qed.

Lemma sort_desc_length l : length (sort_desc lt l) = length l.
Proof. apply Permutation_length, sort_desc_perm. Qed.

(** A list in which no element is below another is left as it is. *)
Lemma sort_desc_no_lt l :
  (forall x y, In x l -> In y l -> lt x y = false) -> sort_desc lt l = l.
Proof.
  induction l as [|x l IH]; intros H; [reflexivity|].
  change (sort_desc lt (x :: l)) with (insert_desc lt x (sort_desc lt l)).
  rewrite IH by (intros; apply H; right; assumption).
  destruct l as [|y l]; [reflexivity|]. cbn.
  rewrite (H x y) by (cbn; auto). reflexivity.
Qed.

End Sort.

Lemma slice_to_map {A B : Type} (f : A -> B) k (l : list A) :
  slice_to k (map f l) = map f (slice_to k l).
Proof.
  unfold slice_to. rewrite length_map. destruct (0 <=? k)%Z; apply firstn_map.
Qed.

Lemma slice_to_length_le {A : Type} k (l : list A) : length (slice_to k l) <= length l.
Proof. unfold slice_to. destruct (0 <=? k)%Z; rewrite length_take; lia. Qed.

Lemma slice_to_all {A : Type} k (l : list A) :
  (Z.of_nat (length l) <= k)%Z -> slice_to k l = l.
Proof.
  intros H. unfold slice_to. destruct (0 <=? k)%Z eqn:E.
  - apply take_ge. lia.
  - apply Z.leb_gt in E. lia.
Qed.

Lemma fst_zip_same_length {A B : Type} (xs : list A) (ys : list B) :
  length xs = length ys -> map fst (Py.zip xs ys) = xs.
Proof.
  revert ys. induction xs as [|x xs IH]; intros [|y ys] H; cbn in *; try congruence.
  f_equal. apply IH. lia.
Qed.

Lemma snd_zip_In {A B : Type} (xs : list A) (ys : list B) p :
  In p (Py.zip xs ys) -> In (snd p) ys.
Proof.
  revert ys. induction xs as [|x xs IH]; intros [|y ys] H; cbn in *; try tauto.
  destruct H as [<-|H]; [left; reflexivity | right; apply IH; exact H].
Qed.


(** *** The fallback sort of the filter: descending by score, stable *)

Lemma insert_relevance_sorted x l :
  StronglySorted score_ge l -> StronglySorted score_ge (insert_desc relevance_lt x l).
Proof.
  induction 1 as [|y l Hs IH Hall]; cbn.
  - repeat constructor.
  - unfold relevance_lt at 1. destruct (snd x <? snd y)%Z eqn:E.
    + apply Z.ltb_lt in E. constructor; [exact IH|].
      eapply Permutation_Forall; [symmetry; apply insert_desc_perm|].
      constructor; [unfold score_ge; lia | exact Hall].
    + apply Z.ltb_ge in E. constructor; [constructor; assumption|].
      constructor; [exact E|].
      eapply List.Forall_impl; [|exact Hall]. unfold score_ge. intros; lia.
Qed.

Lemma sort_relevance_sorted l : StronglySorted score_ge (sort_desc relevance_lt l).
Proof.
  induction l as [|x l IH]; [constructor|].
  apply insert_relevance_sorted. exact IH.
Qed.

Lemma insert_relevance_stable k x l :
  List.filter (has_score k) (insert_desc relevance_lt x l) =
  List.filter (has_score k) (x :: l).
Proof.
  induction l as [|y l IH]; [reflexivity|].
  cbn [insert_desc]. unfold relevance_lt at 1. destruct (snd x <? snd y)%Z eqn:E; [|reflexivity].
  apply Z.ltb_lt in E. cbn [List.filter] in *. rewrite IH. unfold has_score.
  destruct (snd y =? k)%Z eqn:Ey, (snd x =? k)%Z eqn:Ex; try reflexivity.
  apply Z.eqb_eq in Ex, Ey. lia.
Qed.

(** Documents with the same score leave the sort in their input order. *)
Lemma sort_relevance_stable k l :
  List.filter (has_score k) (sort_desc relevance_lt l) = List.filter (has_score k) l.
Proof.
  induction l as [|x l IH]; [reflexivity|].
  change (sort_desc relevance_lt (x :: l)) with (insert_desc relevance_lt x (sort_desc relevance_lt l)).
  rewrite insert_relevance_stable. cbn [List.filter]. rewrite IH. reflexivity.
Qed.

(** *** The selection step *)

Lemma top_two_length scored : length (top_two scored) = Nat.min 2 (length scored).
Proof.
  unfold top_two, slice_to. cbn [Z.leb Z.compare Z.to_nat Pos.to_nat Pos.iter_op Nat.add].
  rewrite length_map, length_take, sort_desc_length. reflexivity.
Qed.

Lemma filter_by_threshold_sublist min_score scored :
  sublist (filter_by_threshold min_score scored) (map fst scored).
Proof.
  unfold filter_by_threshold. generalize (dynamic_threshold min_score scored). intros t.
  induction scored as [|p scored IH]; cbn; [constructor|].
  destruct (Float64.int_ge (snd p) t); cbn; [apply sublist_skip | apply sublist_cons]; exact IH.
Qed.

Lemma filter_by_threshold_length min_score scored :
  length (filter_by_threshold min_score scored) <= length scored.
Proof.
  pose proof (sublist_length _ _ (filter_by_threshold_sublist min_score scored)) as H.
  rewrite length_map in H. exact H.
Qed.

Lemma select_documents_kept min_score scored :
  filter_by_threshold min_score scored <> [] ->
  select_documents min_score scored = filter_by_threshold min_score scored.
Proof.
  unfold select_documents. destruct (filter_by_threshold min_score scored); [congruence|reflexivity].
Qed.

Lemma select_documents_fallback min_score scored :
  scored <> [] -> filter_by_threshold min_score scored = [] ->
  select_documents min_score scored = top_two scored.
Proof.
  unfold select_documents. intros Hne ->. destruct scored; [congruence|reflexivity].
Qed.

Lemma select_documents_length min_score scored :
  scored <> [] ->
  1 <= length (select_documents min_score scored) <= length scored.
Proof.
  intros Hne. destruct (filter_by_threshold min_score scored) as [|d ds] eqn:E.
  - rewrite select_documents_fallback by assumption. rewrite top_two_length.
    destruct scored; [congruence|]. cbn [length]. lia.
  - rewrite select_documents_kept by (rewrite E; discriminate).
    pose proof (filter_by_threshold_length min_score scored) as H. rewrite E in *. cbn [length] in *. lia.
Qed.

End ListFacts.

(** ** The dynamic threshold *)

Module ThresholdFacts.
Import Model Float64 Float64Facts.
Local Open Scope Q_scope.

Lemma max_int_float_cases a b :
  (b <= inject_Z a /\ max_int_float a b = inject_Z a) \/
  (inject_Z a < b /\ max_int_float a b = b).
Proof.
  unfold max_int_float. destruct (Qle_bool b (inject_Z a)) eqn:E.
  - left. apply Qle_bool_iff in E. auto.
  - right. split; [|reflexivity]. apply Qnot_le_lt. intros H.
    apply Qle_bool_iff in H. congruence.
Qed.

Lemma max_int_float_lub a b x :
  max_int_float a b <= x <-> inject_Z a <= x /\ b <= x.
Proof.
  destruct (max_int_float_cases a b) as [[H ->]|[H ->]]; split; intros; try split; lra.
Qed.

Lemma max_int_float_mono a b b' : b <= b' -> max_int_float a b <= max_int_float a b'.
Proof.
  intros H. apply max_int_float_lub.
  destruct (max_int_float_cases a b') as [[H' ->]|[H' ->]]; split; lra.
Qed.

Lemma int_ge_true s t : int_ge s t = true <-> t <= inject_Z s.
Proof. unfold int_ge. apply Qle_bool_iff. Qed.

Lemma dynamic_threshold_eq min_score scored :
  dynamic_threshold min_score scored =
  max_int_float min_score (scaled_mean (sum (map snd scored)) (Z.of_nat (length scored))).
Proof. reflexivity. Qed.

Lemma bpow7 : bpow 7 == 128.
Proof. reflexivity. Qed.

Lemma bpow_m47 : bpow (-47) == 1 # 140737488355328.
Proof. reflexivity. Qed.

Lemma mean_bounds S n lo hi :
  (0 < n)%Z -> (n * lo <= S <= n * hi)%Z ->
  inject_Z lo <= inject_Z S / inject_Z n <= inject_Z hi.
Proof.
  intros Hn [H1 H2].
  assert (HN : 0 < inject_Z n) by (change 0 with (inject_Z 0); rewrite <- Zlt_Qlt; exact Hn).
  rewrite Zle_Qle, inject_Z_mult in H1, H2. split.
  - apply Qle_shift_div_l; [exact HN|]. lra.
  - apply Qle_shift_div_r; [exact HN|]. lra.
Qed.

Lemma mean_shift S n d :
  (0 < n)%Z -> inject_Z (S + n * d) / inject_Z n == inject_Z S / inject_Z n + inject_Z d.
Proof.
  intros Hn. rewrite inject_Z_plus, inject_Z_mult. field.
  intros H. apply (proj1 (inject_Z_injective n 0)) in H. lia.
Qed.

(** The scaled mean grows with the sum. *)
Lemma scaled_mean_mono S S' n :
  (0 < n)%Z -> (0 <= S <= S')%Z -> scaled_mean S n <= scaled_mean S' n.
Proof.
  intros Hn [H0 HS]. unfold scaled_mean, fmul, true_div.
  assert (HN : 0 < inject_Z n) by (change 0 with (inject_Z 0); rewrite <- Zlt_Qlt; exact Hn).
  assert (Ha : 0 <= inject_Z S / inject_Z n).
  { apply Qle_shift_div_l; [exact HN|]. rewrite Zle_Qle in H0. change (inject_Z 0) with 0 in H0. lra. }
  assert (Haa : inject_Z S / inject_Z n <= inject_Z S' / inject_Z n).
  { apply Qmult_le_compat_r; [rewrite <- Zle_Qle; exact HS|]. apply Qlt_le_weak, Qinv_lt_0_compat, HN. }
  pose proof (round64_nonneg _ Ha) as HA.
  pose proof (round64_mono _ _ Ha Haa) as HAA.
  pose proof c06_bounds as [Hc _].
  apply round64_mono; nra.
Qed.

(** Raising every score by [d >= 1] raises the scaled mean by less than [d]:
    a score at or above the old value stays at or above the new one. *)
Lemma scaled_mean_shift S n d s :
  (0 < n)%Z -> (0 <= S)%Z -> (1 <= d)%Z -> (S + n * d <= n * 100)%Z ->
  (0 <= s)%Z -> (s + d <= 100)%Z ->
  scaled_mean S n <= inject_Z s ->
  scaled_mean (S + n * d) n <= inject_Z (s + d).
Proof.
  intros Hn HS Hd Hhi Hs Hsd HT. unfold scaled_mean, fmul, true_div in *.
  rewrite <- (round64_Z (s + d)) by lia.
  destruct (mean_bounds S n 0 (100 - d) Hn ltac:(lia)) as [Ha0 Ha1].
  destruct (mean_bounds (S + n * d) n 0 100 Hn ltac:(lia)) as [Hb0 Hb1].
  pose proof (mean_shift S n d Hn) as Hshift.
  set (a := inject_Z S / inject_Z n) in *. set (a' := inject_Z (S + n * d) / inject_Z n) in *.
  assert (Hx : inject_Z (100 - d) == 100 - inject_Z d).
  { unfold Z.sub. rewrite inject_Z_plus, inject_Z_opp. reflexivity. }
  rewrite Hx in Ha1. clear Hx.
  change (inject_Z 0) with 0 in *. change (inject_Z 100) with 100 in *.
  assert (Hd' : 1 <= inject_Z d) by (change 1 with (inject_Z 1); rewrite <- Zle_Qle; exact Hd).
  destruct (round64_error a Ha0 ltac:(rewrite bpow7; lra)) as [Ea1 Ea2].
  destruct (round64_error a' Hb0 ltac:(rewrite bpow7; lra)) as [Eb1 Eb2].
  pose proof (round64_nonneg a Ha0) as HA. pose proof (round64_nonneg a' Hb0) as HA'.
  rewrite bpow_m47 in Ea1, Ea2, Eb1, Eb2.
  set (A := round64 a) in *. set (A' := round64 a') in *.
  assert (Hy0 : 0 <= A * c06) by (unfold c06; lra).
  destruct (round64_error (A * c06) Hy0 ltac:(rewrite bpow7; unfold c06; lra)) as [Ey1 Ey2].
  rewrite bpow_m47 in Ey1, Ey2.
  set (T := round64 (A * c06)) in *.
  rewrite inject_Z_plus.
  apply round64_mono; [unfold c06; lra|].
  unfold c06 in *. lra.
Qed.

Lemma fold_add_acc l a : fold_left Z.add l a = (a + fold_left Z.add l 0)%Z.
Proof.
  revert a. induction l as [|x l IH]; intros a; cbn [fold_left]; [lia|].
  rewrite (IH (a + x)%Z), (IH (0 + x)%Z). lia.
Qed.

Lemma sum_cons x l : sum (x :: l) = (x + sum l)%Z.
Proof. unfold sum. cbn [fold_left]. rewrite fold_add_acc. lia. Qed.

Lemma sum_bounds lo hi (scored : list (loc * Z)) :
  Forall (fun p => (lo <= snd p <= hi)%Z) scored ->
  (Z.of_nat (length scored) * lo <= sum (map snd scored) <= Z.of_nat (length scored) * hi)%Z.
Proof.
  induction 1 as [|p l Hp _ IH]; [cbn; lia|].
  cbn [map]. rewrite sum_cons. cbn [length]. lia.
Qed.

Lemma sum_shift d (scored : list (loc * Z)) :
  sum (map snd (shift_scores d scored)) =
  (sum (map snd scored) + Z.of_nat (length scored) * d)%Z.
Proof.
  induction scored as [|p l IH]; [reflexivity|].
  unfold shift_scores in *. cbn [map length]. rewrite !sum_cons, IH. cbn [snd]. lia.
Qed.

Lemma shift_scores_length d scored : length (shift_scores d scored) = length scored.
Proof. apply length_map. Qed.

End ThresholdFacts.

(** ** The claims *)

(** ** The order of float scores *)

Module OrderFacts.
Import Model Order.

Lemma SFcompare_rank a b :
  a <> S754_nan -> b <> S754_nan -> SFcompare a b = Some (lexcmp (rank a) (rank b)).
Proof.
  intros Ha Hb.
  destruct a as [sa|sa| |sa ma ea], b as [sb|sb| |sb mb eb]; try congruence;
    try (destruct sa; reflexivity); try (destruct sb; reflexivity);
    try (destruct sa, sb; reflexivity).
  destruct sa, sb; try reflexivity; unfold lexcmp; cbn [SFcompare rank fst snd Z.compare].
  rewrite !Z.compare_opp. rewrite (Z.compare_antisym ea eb).
  destruct (ea ?= eb)%Z; cbn [CompOpp]; try reflexivity.
  cbn. f_equal. symmetry. apply (Pos.compare_antisym ma mb).
Qed.

Lemma lexcmp_refl a : lexcmp a a = Eq.
Proof. unfold lexcmp. rewrite !Z.compare_refl. reflexivity. Qed.

Lemma lexcmp_antisym a b : lexcmp b a = CompOpp (lexcmp a b).
Proof.
  unfold lexcmp. rewrite (Z.compare_antisym (fst (fst a))), (Z.compare_antisym (snd (fst a))),
    (Z.compare_antisym (snd a)).
  destruct (_ ?= _)%Z; cbn; try reflexivity. destruct (_ ?= _)%Z; reflexivity.
Qed.

Lemma lexcmp_Eq a b : lexcmp a b = Eq <-> a = b.
Proof.
  destruct a as [[a1 a2] a3], b as [[b1 b2] b3]. unfold lexcmp. cbn [fst snd].
  destruct (Z.compare_spec a1 b1), (Z.compare_spec a2 b2), (Z.compare_spec a3 b3);
    split; intros HH; try discriminate; try (injection HH as ? ? ?; lia); subst; reflexivity.
Qed.

Lemma lexcmp_Lt a b :
  lexcmp a b = Lt <->
  (fst (fst a) < fst (fst b) \/
   fst (fst a) = fst (fst b) /\
   (snd (fst a) < snd (fst b) \/ snd (fst a) = snd (fst b) /\ snd a < snd b))%Z.
Proof.
  destruct a as [[a1 a2] a3], b as [[b1 b2] b3]. unfold lexcmp. cbn [fst snd].
  destruct (Z.compare_spec a1 b1), (Z.compare_spec a2 b2), (Z.compare_spec a3 b3);
    split; intros HH; try discriminate; try lia; reflexivity.
Qed.

(** [a] is not below [b], and [b] is not below [c]: then [a] is not below [c]. *)
Lemma lexcmp_not_Lt_trans a b c :
  lexcmp a b <> Lt -> lexcmp b c <> Lt -> lexcmp a c <> Lt.
Proof.
  rewrite !lexcmp_Lt. destruct a as [[a1 a2] a3], b as [[b1 b2] b3], c as [[c1 c2] c3].
  cbn [fst snd]. lia.
Qed.

Lemma not_nan_SF f : not_nan f -> Prim2SF f <> S754_nan.
Proof.
  unfold not_nan. rewrite FloatAxioms.eqb_spec. unfold SFeqb. intros H E.
  rewrite E in H. discriminate.
Qed.

Lemma compare_key (x y : loc * float) :
  not_nan (snd x) -> not_nan (snd y) ->
  SFcompare (Prim2SF (snd x)) (Prim2SF (snd y)) = Some (lexcmp (key x) (key y)).
Proof. intros Hx Hy. apply SFcompare_rank; apply not_nan_SF; assumption. Qed.

Lemma score_lt_key x y :
  not_nan (snd x) -> not_nan (snd y) -> (score_lt x y = true <-> lexcmp (key x) (key y) = Lt).
Proof.
  intros Hx Hy. unfold score_lt. rewrite FloatAxioms.ltb_spec. unfold SFltb.
  rewrite (compare_key x y Hx Hy). destruct (lexcmp (key x) (key y)); split; congruence.
Qed.

Lemma fscore_ge_key a b :
  not_nan (snd a) -> not_nan (snd b) -> (fscore_ge a b <-> lexcmp (key a) (key b) <> Lt).
Proof.
  intros Ha Hb. unfold fscore_ge. rewrite FloatAxioms.leb_spec. unfold SFleb.
  rewrite (compare_key b a Hb Ha), (lexcmp_antisym (key a) (key b)).
  destruct (lexcmp (key a) (key b)); cbn; split; congruence.
Qed.

Lemma has_fscore_key s p :
  not_nan (snd p) -> has_fscore s p = true -> not_nan s /\ key p = rank (Prim2SF s).
Proof.
  intros Hp. unfold has_fscore. rewrite FloatAxioms.eqb_spec. unfold SFeqb. intros H.
  assert (Hs : Prim2SF s <> S754_nan).
  { intros E. rewrite E in H. destruct (Prim2SF (snd p)); discriminate. }
  rewrite (SFcompare_rank _ _ (not_nan_SF _ Hp) Hs) in H.
  split.
  - unfold not_nan. rewrite FloatAxioms.eqb_spec. unfold SFeqb.
    rewrite (SFcompare_rank _ _ Hs Hs), lexcmp_refl. reflexivity.
  - apply lexcmp_Eq. unfold key. destruct (lexcmp _ _); congruence.
Qed.

Lemma insert_fscore_sorted x l :
  not_nan (snd x) -> all_scored l ->
  StronglySorted fscore_ge l -> StronglySorted fscore_ge (insert_desc score_lt x l).
Proof.
  intros Hx Hl Hs. induction Hs as [|y l Hs IH Hall]; cbn [insert_desc].
  - repeat constructor.
  - apply Forall_cons in Hl as [Hy Hl]. specialize (IH Hl).
    destruct (score_lt x y) eqn:E.
    + constructor; [exact IH|].
      eapply Permutation_Forall; [symmetry; apply ListFacts.insert_desc_perm|].
      constructor; [|exact Hall].
      apply fscore_ge_key; try assumption.
      apply (score_lt_key x y Hx Hy) in E. rewrite lexcmp_antisym, E. discriminate.
    + assert (Hxy : fscore_ge x y).
      { apply fscore_ge_key; try assumption. intros H. apply (score_lt_key x y Hx Hy) in H.
        congruence. }
      constructor; [constructor; assumption|]. constructor; [exact Hxy|].
      rewrite List.Forall_forall in *. intros z Hz.
      apply fscore_ge_key; [assumption | apply (Hl z Hz) |].
      eapply lexcmp_not_Lt_trans.
      * apply (fscore_ge_key x y Hx Hy). exact Hxy.
      * apply (fscore_ge_key y z Hy (Hl z Hz)). apply Hall, Hz.
Qed.

Lemma sort_desc_all_scored l : all_scored l -> all_scored (sort_desc score_lt l).
Proof.
  intros H. eapply Permutation_Forall; [symmetry; apply ListFacts.sort_desc_perm | exact H].
Qed.

Lemma sort_fscore_sorted l :
  all_scored l -> StronglySorted fscore_ge (sort_desc score_lt l).
Proof.
  induction l as [|x l IH]; intros H; [constructor|].
  apply Forall_cons in H as [Hx Hl].
  change (sort_desc score_lt (x :: l)) with (insert_desc score_lt x (sort_desc score_lt l)).
  apply insert_fscore_sorted; [exact Hx | apply sort_desc_all_scored, Hl | apply IH, Hl].
Qed.

Lemma insert_fscore_stable s x l :
  not_nan (snd x) -> all_scored l ->
  List.filter (has_fscore s) (insert_desc score_lt x l) = List.filter (has_fscore s) (x :: l).
Proof.
  intros Hx Hl. induction l as [|y l IH]; [reflexivity|].
  apply Forall_cons in Hl as [Hy Hl]. specialize (IH Hl).
  cbn [insert_desc]. destruct (score_lt x y) eqn:E; [|reflexivity].
  cbn [List.filter] in *. rewrite IH.
  destruct (has_fscore s y) eqn:Ey, (has_fscore s x) eqn:Ex; try reflexivity.
  apply (has_fscore_key s x Hx) in Ex as [_ Ex]. apply (has_fscore_key s y Hy) in Ey as [_ Ey].
  apply (score_lt_key x y Hx Hy) in E. rewrite Ex, Ey, lexcmp_refl in E. discriminate.
Qed.

(** Pairs with equal scores leave the sort in their input order. *)
Lemma sort_fscore_stable s l :
  all_scored l ->
  List.filter (has_fscore s) (sort_desc score_lt l) = List.filter (has_fscore s) l.
Proof.
  induction l as [|x l IH]; intros H; [reflexivity|].
  apply Forall_cons in H as [Hx Hl].
  change (sort_desc score_lt (x :: l)) with (insert_desc score_lt x (sort_desc score_lt l)).
  rewrite insert_fscore_stable by (try assumption; apply sort_desc_all_scored, Hl).
  cbn [List.filter]. rewrite IH by exact Hl. reflexivity.
Qed.

Lemma zip_all_scored (docs : list loc) scores :
  Forall not_nan scores -> all_scored (zip docs scores).
Proof.
  intros H. apply List.Forall_forall. intros p Hp.
  rewrite List.Forall_forall in H. apply H. eapply ListFacts.snd_zip_In. exact Hp.
Qed.

End OrderFacts.

(** ** The threshold against the exact mean *)

Module BoundFacts.
Import Model Float64 Float64Facts ThresholdFacts.
Local Open Scope Q_scope.

Lemma bpow_m46 : bpow (-46) == 1 # 70368744177664.
Proof. reflexivity. Qed.

(** The binary64 value of [(S / n) * 0.6] is within 2^-46 of 0.6 times the
    mean, for the sum [S] of [n] scores in [0, 100]. *)
Lemma scaled_mean_near S n :
  (0 < n)%Z -> (0 <= S <= n * 100)%Z ->
  scaled_mean S n - (6 # 10) * (inject_Z S / inject_Z n) <= 1 # 70368744177664 /\
  (6 # 10) * (inject_Z S / inject_Z n) - scaled_mean S n <= 1 # 70368744177664.
Proof.
  intros Hn HS. unfold scaled_mean, fmul, true_div.
  destruct (mean_bounds S n 0 100 Hn ltac:(lia)) as [Ha0 Ha1].
  change (inject_Z 0) with 0 in Ha0. change (inject_Z 100) with 100 in Ha1.
  set (a := inject_Z S / inject_Z n) in *.
  destruct (round64_error a Ha0 ltac:(rewrite bpow7; lra)) as [Ea1 Ea2].
  pose proof (round64_nonneg a Ha0) as HA.
  rewrite bpow_m47 in Ea1, Ea2.
  set (A := round64 a) in *.
  assert (Hy0 : 0 <= A * c06) by (unfold c06; lra).
  destruct (round64_error (A * c06) Hy0 ltac:(rewrite bpow7; unfold c06; lra)) as [Ey1 Ey2].
  rewrite bpow_m47 in Ey1, Ey2.
  set (T := round64 (A * c06)) in *.
  unfold c06 in *. split; lra.
Qed.

(** The threshold is max(min_score, 0.6 * mean), up to 2^-46. *)
Lemma threshold_near min_score scored :
  scored <> [] -> Forall (fun p => (0 <= snd p <= 100)%Z) scored ->
  let mean := inject_Z (sum (map snd scored)) / inject_Z (Z.of_nat (length scored)) in
  let t := dynamic_threshold min_score scored in
  inject_Z min_score <= t /\
  (6 # 10) * mean - (1 # 70368744177664) <= t /\
  (t <= inject_Z min_score \/ t <= (6 # 10) * mean + (1 # 70368744177664)).
Proof.
  intros Hne Hall mean t.
  assert (Hn : (0 < Z.of_nat (length scored))%Z) by (destruct scored; [congruence | cbn; lia]).
  pose proof (sum_bounds 0 100 scored Hall) as Hb.
  destruct (scaled_mean_near (sum (map snd scored)) (Z.of_nat (length scored)) Hn ltac:(lia))
    as [H1 H2].
  fold mean in H1, H2. unfold t. rewrite dynamic_threshold_eq.
  destruct (max_int_float_cases min_score
              (scaled_mean (sum (map snd scored)) (Z.of_nat (length scored))))
    as [[H ->]|[H ->]].
  - split; [lra|]. split; [lra|]. left. lra.
  - split; [lra|]. split; [lra|]. right. lra.
Qed.

Lemma filter_none_iff {A : Type} (P : A -> bool) l :
  List.filter P l = [] <-> forall x, In x l -> P x = false.
Proof.
  induction l as [|x l IH]; cbn; [tauto|].
  destruct (P x) eqn:E; split.
  - discriminate.
  - intros H. specialize (H x (or_introl eq_refl)). congruence.
  - intros H y [<-|Hy]; [exact E | apply IH; assumption].
  - intros H. apply IH. intros y Hy. apply H. right. exact Hy.
Qed.

Lemma kept_some min_score scored :
  (exists p, In p scored /\ dynamic_threshold min_score scored <= inject_Z (snd p)) ->
  filter_by_threshold min_score scored <> [].
Proof.
  intros (p & Hp & Hge) E. unfold filter_by_threshold in E.
  apply map_eq_nil in E. apply (proj1 (filter_none_iff _ _)) with (x := p) in E; [|exact Hp].
  apply int_ge_true in Hge. congruence.
Qed.

Lemma kept_none min_score scored :
  (forall p, In p scored -> inject_Z (snd p) < dynamic_threshold min_score scored) ->
  filter_by_threshold min_score scored = [].
Proof.
  intros H. unfold filter_by_threshold.
  rewrite (proj2 (filter_none_iff _ scored)); [reflexivity|].
  intros p Hp. destruct (int_ge (snd p) _) eqn:E; [|reflexivity].
  apply int_ge_true in E. specialize (H p Hp). lra.
Qed.

End BoundFacts.

Import Model Scenarios PipelineFacts ListFacts ThresholdFacts Order OrderFacts BoundFacts.
Local Open Scope string_scope.

(** *** CorrectiveRAG.filter_documents *)

(** C1, as the specification states it, fails: with oracle scores 100, 0, 0
    and [min_score = 25] the mean is 33.3, the threshold is 25, one document
    passes it and the fallback does not run, so one document is returned
    where min(2, 3) = 2 are promised. *)
Lemma C1_counterexample :
  ~ (forall (C : collaborators) query docs min_score w result w',
       docs <> [] ->
       filter_documents C query docs min_score w = (Ret result, w') ->
       Nat.min 2 (length docs) <= length result).
Proof.
  intros H.
  assert (E : fst (filter_documents (oracle ["100"; "0"; "0"]) "q" [0; 1; 2] 25
                      (world_of texts3)) = Ret [0]) by (vm_compute; reflexivity).
  pose proof (H (oracle ["100"; "0"; "0"]) "q" [0; 1; 2] 25%Z (world_of texts3) [0] _
                ltac:(discriminate) (run_fst _ _ _ E)) as Hlen.
  cbn [length Nat.min] in Hlen. lia.
Qed.

(** C1, amended: for a non-empty list of documents [filter_documents] never
    raises and returns at least one document and at most as many as it got;
    it returns exactly min(2, len(documents)) documents when no document
    meets the dynamic threshold, and otherwise exactly the documents that
    meet it. *)
Theorem C1_filter_documents_nonempty (C : collaborators) query docs min_score w :
  docs <> [] ->
  exists scored result w',
    score_documents C query docs w = (Ret scored, w') /\
    filter_documents C query docs min_score w = (Ret result, w') /\
    1 <= length result <= length docs /\
    (filter_by_threshold min_score scored = [] ->
       length result = Nat.min 2 (length docs)) /\
    (filter_by_threshold min_score scored <> [] ->
       result = filter_by_threshold min_score scored).
Proof.
  intros Hne.
  destruct (filter_documents_run C query docs min_score w Hne)
    as (scored & w' & Hrun & Hfst & _ & Hres).
  assert (Hlen : length scored = length docs) by (rewrite <- Hfst, length_map; reflexivity).
  assert (Hsc : scored <> []) by (intros ->; cbn in Hfst; congruence).
  exists scored, (select_documents min_score scored), w'.
  split; [exact Hrun|]. split; [exact Hres|]. split; [|split].
  - rewrite <- Hlen. apply select_documents_length, Hsc.
  - intros Hnone. rewrite select_documents_fallback by assumption.
    rewrite top_two_length, Hlen. reflexivity.
  - apply select_documents_kept.
Qed.

Lemma C1_witness :
  [0; 1; 2] <> [] /\
  exists scored result w',
    score_documents (oracle ["100"; "0"; "0"]) "q" [0; 1; 2] (world_of texts3) = (Ret scored, w') /\
    filter_documents (oracle ["100"; "0"; "0"]) "q" [0; 1; 2] 25 (world_of texts3) = (Ret result, w') /\
    1 <= length result <= length [0; 1; 2] /\
    (filter_by_threshold 25 scored = [] -> length result = Nat.min 2 (length [0; 1; 2])) /\
    (filter_by_threshold 25 scored <> [] -> result = filter_by_threshold 25 scored).
Proof.
  split; [discriminate|].
  apply (C1_filter_documents_nonempty (oracle ["100"; "0"; "0"]) "q" [0; 1; 2] 25 (world_of texts3)).
  discriminate.
Defined.

(** C10: the conditions are on the scores against the dynamic threshold
    t = max(min_score, binary64((sum / n) * 0.6)).  When at least one
    document scores at or above t, [filter_documents] returns exactly the
    documents scoring at or above t, in input order (a sublist of the input,
    nothing re-sorted).  When every document scores below t, it returns the
    first two documents of the scored list sorted by descending score, a
    stable sort: documents with equal scores keep their input order. *)
Theorem C10_filter_keeps_input_order (C : collaborators) query docs min_score w :
  docs <> [] ->
  exists scored result w',
    score_documents C query docs w = (Ret scored, w') /\
    map fst scored = docs /\
    filter_documents C query docs min_score w = (Ret result, w') /\
    let t := Float64.max_int_float min_score
               (Float64.fmul (Float64.true_div (sum (map snd scored))
                                               (Z.of_nat (length scored)))
                             Float64.c06) in
    ((exists p, In p scored /\ (t <= inject_Z (snd p))%Q) ->
       result = map fst (List.filter (fun p => Float64.int_ge (snd p) t) scored) /\
       sublist result docs) /\
    ((forall p, In p scored -> (inject_Z (snd p) < t)%Q) ->
       exists sorted,
         result = map fst (take 2 sorted) /\
         Permutation sorted scored /\
         StronglySorted score_ge sorted /\
         forall k, List.filter (has_score k) sorted = List.filter (has_score k) scored).
Proof.
  intros Hne.
  destruct (filter_documents_run C query docs min_score w Hne)
    as (scored & w' & Hrun & Hfst & _ & Hres).
  assert (Hsc : scored <> []) by (intros ->; cbn in Hfst; congruence).
  exists scored, (select_documents min_score scored), w'.
  split; [exact Hrun|]. split; [exact Hfst|]. split; [exact Hres|].
  cbv zeta. split.
  - intros Hsome. rewrite select_documents_kept by (apply kept_some; exact Hsome).
    split; [reflexivity|]. rewrite <- Hfst. apply filter_by_threshold_sublist.
  - intros Hnone. rewrite select_documents_fallback by (try assumption; apply kept_none, Hnone).
    exists (sort_desc relevance_lt scored).
    split; [reflexivity|]. split; [apply sort_desc_perm|].
    split; [apply sort_relevance_sorted|]. intros k. apply sort_relevance_stable.
Qed.

Lemma C10_witness :
  [0; 1; 2; 3; 4] <> [] /\
  exists scored result w',
    score_documents (oracle ["90"; "85"; "10"; "5"; "50"]) "q" [0; 1; 2; 3; 4] (world_of texts5)
      = (Ret scored, w') /\
    map fst scored = [0; 1; 2; 3; 4] /\
    filter_documents (oracle ["90"; "85"; "10"; "5"; "50"]) "q" [0; 1; 2; 3; 4] 25
      (world_of texts5) = (Ret result, w') /\
    let t := Float64.max_int_float 25
               (Float64.fmul (Float64.true_div (sum (map snd scored))
                                               (Z.of_nat (length scored)))
                             Float64.c06) in
    ((exists p, In p scored /\ (t <= inject_Z (snd p))%Q) ->
       result = map fst (List.filter (fun p => Float64.int_ge (snd p) t) scored) /\
       sublist result [0; 1; 2; 3; 4]) /\
    ((forall p, In p scored -> (inject_Z (snd p) < t)%Q) ->
       exists sorted,
         result = map fst (take 2 sorted) /\
         Permutation sorted scored /\
         StronglySorted score_ge sorted /\
         forall k, List.filter (has_score k) sorted = List.filter (has_score k) scored).
Proof.
  split; [discriminate|].
  apply (C10_filter_keeps_input_order (oracle ["90"; "85"; "10"; "5"; "50"]) "q"
           [0; 1; 2; 3; 4] 25 (world_of texts5)).
  discriminate.
Defined.

(** Both branches, run: scores 50, 90, 10 keep the documents scoring 50 and
    90 in input order; scores 10, 20, 15 are all below the threshold 25 and
    the fallback returns the documents scoring 20 and 15, best first. *)
Example filter_order_runs :
  fst (filter_documents (oracle ["50"; "90"; "10"]) "q" [0; 1; 2] 25 (world_of texts3))
    = Ret [0; 1] /\
  fst (filter_documents (oracle ["10"; "20"; "15"]) "q" [0; 1; 2] 25 (world_of texts3))
    = Ret [1; 2].
Proof. split; vm_compute; reflexivity. Qed.

(** Scenario B of the specification: three documents all scoring 10 are all
    below the threshold 25, and the fallback returns the first two. *)
Example scenario_B :
  fst (filter_documents (oracle ["10"; "10"; "10"]) "q" [0; 1; 2] 25 (world_of texts3))
  = Ret [0; 1].
Proof. vm_compute. reflexivity. Qed.

(** C2: for a non-empty document list [filter_documents] computes the
    threshold t = max(min_score, mean * 0.6), with the mean and the product
    in binary64 (so t is within 2^-46 of the exact max(min_score, 0.6 *
    mean)), and the threshold step keeps exactly the documents whose score is
    at or above t, in input order: that is the result whenever some document
    reaches t.  For the scores 90, 85, 10, 5, 50 and min_score 25 the mean is
    48, the threshold is 28.8 (the binary64 product 48.0 * 0.6, within 2^-46 of
    28.8) and exactly the documents scoring 90, 85 and 50 are kept. *)
Theorem C2_dynamic_threshold (C : collaborators) query docs min_score w :
  docs <> [] ->
  (exists scored result w',
     score_documents C query docs w = (Ret scored, w') /\
     map fst scored = docs /\
     filter_documents C query docs min_score w = (Ret result, w') /\
     let mean := (inject_Z (sum (map snd scored)) / inject_Z (Z.of_nat (length scored)))%Q in
     let t := Float64.max_int_float min_score
                (Float64.fmul (Float64.true_div (sum (map snd scored))
                                                (Z.of_nat (length scored)))
                              Float64.c06) in
     dynamic_threshold min_score scored = t /\
     (inject_Z min_score <= t)%Q /\
     ((6 # 10) * mean - (1 # 70368744177664) <= t)%Q /\
     ((t <= inject_Z min_score)%Q \/ (t <= (6 # 10) * mean + (1 # 70368744177664))%Q) /\
     filter_by_threshold min_score scored =
       map fst (List.filter (fun p => Float64.int_ge (snd p) t) scored) /\
     (forall p, In p (List.filter (fun p => Float64.int_ge (snd p) t) scored) <->
                In p scored /\ (t <= inject_Z (snd p))%Q) /\
     ((exists p, In p scored /\ (t <= inject_Z (snd p))%Q) ->
      result = map fst (List.filter (fun p => Float64.int_ge (snd p) t) scored))) /\
  fst (score_documents (oracle ["90"; "85"; "10"; "5"; "50"]) "q" [0; 1; 2; 3; 4]
         (world_of texts5)) = Ret scenario_A /\
  (inject_Z (sum (map snd scenario_A)) / inject_Z (Z.of_nat (length scenario_A)) == 48)%Q /\
  (dynamic_threshold 25 scenario_A == 8106479329266892 # 281474976710656)%Q /\
  ((288 # 10) - (1 # 70368744177664) <= dynamic_threshold 25 scenario_A
     <= (288 # 10) + (1 # 70368744177664))%Q /\
  List.filter (fun p => Float64.int_ge (snd p) (dynamic_threshold 25 scenario_A)) scenario_A
    = [(0, 90%Z); (1, 85%Z); (4, 50%Z)] /\
  fst (filter_documents (oracle ["90"; "85"; "10"; "5"; "50"]) "q" [0; 1; 2; 3; 4] 25
         (world_of texts5)) = Ret [0; 1; 4].
Proof.
  intros Hne. split.
  - destruct (filter_documents_run C query docs min_score w Hne)
      as (scored & w' & Hrun & Hfst & Hrange & Hres).
    assert (Hsc : scored <> []) by (intros ->; cbn in Hfst; congruence).
    exists scored, (select_documents min_score scored), w'.
    split; [exact Hrun|]. split; [exact Hfst|]. split; [exact Hres|].
    cbv zeta. split; [reflexivity|].
    destruct (threshold_near min_score scored Hsc Hrange) as (H1 & H2 & H3).
    split; [exact H1|]. split; [exact H2|]. split; [exact H3|].
    split; [reflexivity|]. split.
    + intros p. rewrite List.filter_In, int_ge_true. reflexivity.
    + intros Hsome. apply select_documents_kept, kept_some, Hsome.
  - split; [vm_compute; reflexivity|].
    split; [reflexivity|].
    split; [vm_compute; reflexivity|].
    split; [split; vm_compute; discriminate|].
    split; vm_compute; reflexivity.
Qed.

Lemma C2_witness :
  [0; 1; 2; 3; 4] <> [] /\
  fst (filter_documents (oracle ["90"; "85"; "10"; "5"; "50"]) "q" [0; 1; 2; 3; 4] 25
         (world_of texts5)) = Ret [0; 1; 4].
Proof.
  split; [discriminate|].
  apply (C2_dynamic_threshold (oracle ["90"; "85"; "10"; "5"; "50"]) "q" [0; 1; 2; 3; 4] 25
           (world_of texts5)).
  discriminate.
Defined.

(** The kernel's binary64 multiplication gives the same threshold in
    scenario A. *)
Example scenario_A_hardware :
  Prim2SF (Float64.hw_scaled_mean 240 5) = S754_finite false 8106479329266892 (-48).
Proof. vm_compute. reflexivity. Qed.

(** *** Raising every score *)

Lemma shifted_score_passes min_score delta scored p :
  scored <> [] -> (0 < delta)%Z ->
  Forall (fun p => (0 <= snd p)%Z /\ (snd p + delta <= 100)%Z) scored ->
  In p scored ->
  Float64.int_ge (snd p) (dynamic_threshold min_score scored) = true ->
  Float64.int_ge (snd p + delta)
    (dynamic_threshold min_score (shift_scores delta scored)) = true.
Proof.
  intros Hne Hd Hall Hin Hp.
  rewrite int_ge_true in *. rewrite dynamic_threshold_eq in *.
  rewrite sum_shift, shift_scores_length.
  apply max_int_float_lub in Hp as [Hm HT]. apply max_int_float_lub.
  assert (Hn : (0 < Z.of_nat (length scored))%Z) by (destruct scored; [congruence | cbn; lia]).
  assert (Hb : (Z.of_nat (length scored) * 0 <= sum (map snd scored)
                <= Z.of_nat (length scored) * (100 - delta))%Z).
  { apply sum_bounds. eapply List.Forall_impl; [|exact Hall]. cbn. intros; lia. }
  rewrite List.Forall_forall in Hall. destruct (Hall p Hin) as [Hp0 Hp1].
  split.
  - rewrite <- Zle_Qle in *. lia.
  - apply scaled_mean_shift; try lia. exact HT.
Qed.

Lemma filter_shift_sublist (P P' : loc * Z -> bool) delta scored :
  (forall p, In p scored -> P p = true -> P' (fst p, (snd p + delta)%Z) = true) ->
  sublist (map fst (List.filter P scored))
          (map fst (List.filter P' (shift_scores delta scored))).
Proof.
  induction scored as [|p l IH]; intros H; [constructor|].
  cbn [shift_scores map List.filter].
  assert (IH' := IH (fun q Hq => H q (or_intror Hq))).
  destruct (P p) eqn:E.
  - rewrite (H p (or_introl eq_refl) E). cbn [map fst]. apply sublist_skip. exact IH'.
  - destruct (P' _); [cbn [map]; apply sublist_cons|]; exact IH'.
Qed.

(** C3, as the specification states it, fails: with scores 24, 0, 0 and
    [min_score = 25] nothing meets the threshold 25 and the fallback returns
    two documents; with every score raised by 1 the scores are 25, 1, 1, the
    threshold is still 25, one document meets it, and one document is
    returned. *)
Lemma C3_counterexample :
  ~ (forall min_score delta scored,
       scored <> [] -> (0 < delta)%Z ->
       Forall (fun p => (0 <= snd p)%Z /\ (snd p + delta <= 100)%Z) scored ->
       (dynamic_threshold min_score scored <=
        dynamic_threshold min_score (shift_scores delta scored))%Q /\
       length (select_documents min_score scored) <=
       length (select_documents min_score (shift_scores delta scored))).
Proof.
  intros H.
  destruct (H 25%Z 1%Z [(0, 24%Z); (1, 0%Z); (2, 0%Z)]) as [_ Hlen].
  - discriminate.
  - lia.
  - repeat constructor; cbn; lia.
  - vm_compute in Hlen. lia.
Qed.

(** The two runs of the counterexample, through the oracle. *)
Example C3_runs :
  fst (filter_documents (oracle ["24"; "0"; "0"]) "q" [0; 1; 2] 25 (world_of texts3))
    = Ret [0; 1] /\
  fst (filter_documents (oracle ["25"; "1"; "1"]) "q" [0; 1; 2] 25 (world_of texts3))
    = Ret [0].
Proof. split; vm_compute; reflexivity. Qed.

(** C3, amended: for scores in [0, 100] before and after, raising every
    score by the same delta > 0 does not lower the dynamic threshold, and
    every document that met the threshold still meets it, so the documents
    kept by the threshold step are a sublist of those kept after the raise and
    their number does not decrease; the number of documents in the final
    result does not decrease when the original run kept at least one document
    by the threshold. *)
Theorem C3_threshold_monotone min_score delta scored :
  scored <> [] -> (0 < delta)%Z ->
  Forall (fun p => (0 <= snd p)%Z /\ (snd p + delta <= 100)%Z) scored ->
  (dynamic_threshold min_score scored <=
   dynamic_threshold min_score (shift_scores delta scored))%Q /\
  sublist (filter_by_threshold min_score scored)
          (filter_by_threshold min_score (shift_scores delta scored)) /\
  length (filter_by_threshold min_score scored) <=
  length (filter_by_threshold min_score (shift_scores delta scored)) /\
  (filter_by_threshold min_score scored <> [] ->
   length (select_documents min_score scored) <=
   length (select_documents min_score (shift_scores delta scored))).
Proof.
  intros Hne Hd Hall.
  assert (Hsub : sublist (filter_by_threshold min_score scored)
                         (filter_by_threshold min_score (shift_scores delta scored))).
  { unfold filter_by_threshold. apply filter_shift_sublist.
    intros p Hin Hp. cbn [snd]. apply shifted_score_passes; assumption. }
  pose proof (sublist_length _ _ Hsub) as Hlen.
  split; [|split; [exact Hsub|split; [exact Hlen|]]].
  - rewrite !dynamic_threshold_eq, sum_shift, shift_scores_length.
    assert (Hn : (0 < Z.of_nat (length scored))%Z) by (destruct scored; [congruence | cbn; lia]).
    assert (Hb : (Z.of_nat (length scored) * 0 <= sum (map snd scored)
                  <= Z.of_nat (length scored) * 100)%Z).
    { apply sum_bounds. eapply List.Forall_impl; [|exact Hall]. cbn. intros; lia. }
    apply max_int_float_mono, scaled_mean_mono; [exact Hn|]. nia.
  - intros Hkept. rewrite select_documents_kept by exact Hkept.
    rewrite select_documents_kept; [exact Hlen|].
    intros E. rewrite E in Hlen. destruct (filter_by_threshold min_score scored); [congruence|].
    cbn in Hlen. lia.
Qed.

Lemma C3_witness :
  (dynamic_threshold 25 scenario_A <= dynamic_threshold 25 (shift_scores 5 scenario_A))%Q /\
  sublist (filter_by_threshold 25 scenario_A)
          (filter_by_threshold 25 (shift_scores 5 scenario_A)) /\
  length (filter_by_threshold 25 scenario_A) <=
  length (filter_by_threshold 25 (shift_scores 5 scenario_A)) /\
  (filter_by_threshold 25 scenario_A <> [] ->
   length (select_documents 25 scenario_A) <=
   length (select_documents 25 (shift_scores 5 scenario_A))).
Proof.
  apply (C3_threshold_monotone 25 5 scenario_A).
  - discriminate.
  - lia.
  - repeat constructor; cbn; lia.
Defined.

(** *** CorrectiveRAG.check_relevance *)

(** C6, as the specification states it, fails: the code joins every digit
    character among the first five characters of the reply, not only the
    first run.  For the ASCII reply "7/10" it parses "710" and returns
    (True, 100), where the first run of digits, "7", gives (False, 7). *)
Lemma C6_counterexample :
  ~ (forall (C : collaborators) query doc w response,
       llm_invoke C (trace w) (asked query doc w) = Ret response ->
       is_ascii (str_take 5 response) ->
       fst (check_relevance C query doc w) =
       Ret (SpecReading.first_run_verdict (Ret response))).
Proof.
  intros H.
  specialize (H (oracle ["7/10"]) "q" 0 (world_of texts3) "7/10" eq_refl).
  assert (Ha : is_ascii (str_take 5 "7/10")) by reflexivity.
  specialize (H Ha). vm_compute in H. discriminate.
Qed.

(** C6, amended: for every reply whose first 5 characters are ASCII, the
    verdict is computed from all the digit characters among those first 5
    characters, concatenated and read as one decimal number; if there is no
    digit among them, or the oracle call raises, the verdict is (True, 70); a
    parsed score is clamped to at most 100, and is_relevant is score >= 25.
    For every reply the check returns a verdict (it never raises) whose score
    lies in [0, 100], with is_relevant = (score >= 25), after exactly one
    oracle call. *)
Theorem C6_check_relevance_verdict (C : collaborators) query doc w :
  (llm_invoke C (trace w) (asked query doc w) = Raise ->
   fst (check_relevance C query doc w) = Ret (true, 70%Z)) /\
  (forall response,
     llm_invoke C (trace w) (asked query doc w) = Ret response ->
     is_ascii (str_take 5 response) ->
     digits_of (str_take 5 response) = [] ->
     fst (check_relevance C query doc w) = Ret (true, 70%Z)) /\
  (forall response n,
     llm_invoke C (trace w) (asked query doc w) = Ret response ->
     is_ascii (str_take 5 response) ->
     int_of_digits (digits_of (str_take 5 response)) = Some n ->
     fst (check_relevance C query doc w) = Ret ((25 <=? Z.min n 100)%Z, Z.min n 100)) /\
  (exists relevant score,
     fst (check_relevance C query doc w) = Ret (relevant, score) /\
     (0 <= score <= 100)%Z /\ relevant = (25 <=? score)%Z) /\
  snd (check_relevance C query doc w) = record (EvLLM (asked query doc w)) w.
Proof.
  rewrite check_relevance_run. cbn [fst snd].
  split; [intros ->; reflexivity|]. split; [|split; [|split; [|reflexivity]]].
  - intros response -> _ H. unfold verdict_of. rewrite parse_score_no_digits by exact H.
    reflexivity.
  - intros response n -> _ H. unfold verdict_of, parse_score. rewrite H. reflexivity.
  - destruct (verdict_of (llm_invoke C (trace w) (asked query doc w))) as [b s] eqn:E.
    exists b, s. split; [reflexivity|].
    pose proof (verdict_of_range (llm_invoke C (trace w) (asked query doc w))) as Hr.
    pose proof (verdict_of_relevant (llm_invoke C (trace w) (asked query doc w))) as Hb.
    rewrite E in Hr, Hb. cbn [fst snd] in Hr, Hb. split; assumption.
Qed.

(** The amended reading on ASCII replies: digits joined across a
    separator, no digit among the first five characters, a bare number. *)
Example check_relevance_runs :
  fst (check_relevance (oracle ["8 / 10"]) "q" 0 (world_of texts3)) = Ret (true, 81%Z) /\
  fst (check_relevance (oracle ["Score: 85"]) "q" 0 (world_of texts3)) = Ret (true, 70%Z) /\
  fst (check_relevance (oracle ["12"]) "q" 0 (world_of texts3)) = Ret (false, 12%Z).
Proof. repeat split; vm_compute; reflexivity. Qed.

(** *** CrossEncoderReranker.rerank *)

Lemma eqb_not_ltb (a b : float) : PrimFloat.eqb a b = true -> PrimFloat.ltb a b = false.
Proof.
  rewrite FloatAxioms.eqb_spec, FloatAxioms.ltb_spec. unfold SFeqb, SFltb.
  destruct (SFcompare (Prim2SF a) (Prim2SF b)) as [[]|]; congruence.
Qed.

Lemma rerank_scored (C : collaborators) self query docs top_k w scores :
  available self = true -> docs <> [] ->
  model_predict C (trace w) (pairs_of query docs w) = Ret scores ->
  fst (rerank C self query docs top_k w) =
  Ret (map fst (slice_to top_k (sort_desc score_lt (zip docs scores)))).
Proof.
  intros Ha Hne Hp. unfold rerank. rewrite Ha. destruct docs as [|d docs]; [congruence|].
  cbn [negb orb is_nil].
  assert (Hg : gets (pairs_of query (d :: docs)) w = (Ret (pairs_of query (d :: docs) w), w))
    by reflexivity.
  rewrite (bind_run _ _ _ _ _ Hg).
  assert (Hc : call_predict C (pairs_of query (d :: docs) w) w =
               (Ret scores, record (EvPredict (pairs_of query (d :: docs) w)) w)).
  { unfold call_predict. rewrite Hp. reflexivity. }
  rewrite (bind_run _ _ _ _ _ Hc). apply mapM_annotate_run.
Qed.

Lemma rerank_predict_raises (C : collaborators) self query docs top_k w :
  available self = true -> docs <> [] ->
  model_predict C (trace w) (pairs_of query docs w) = Raise ->
  rerank C self query docs top_k w = (Raise, record (EvPredict (pairs_of query docs w)) w).
Proof.
  intros Ha Hne Hp. unfold rerank. rewrite Ha. destruct docs as [|d docs]; [congruence|].
  cbn [negb orb is_nil].
  assert (Hg : gets (pairs_of query (d :: docs)) w = (Ret (pairs_of query (d :: docs) w), w))
    by reflexivity.
  rewrite (bind_run _ _ _ _ _ Hg).
  apply bind_raise. unfold call_predict. rewrite Hp. reflexivity.
Qed.

Lemma rerank_skips (C : collaborators) self query docs top_k w :
  available self = false \/ docs = [] ->
  rerank C self query docs top_k w = (Ret (slice_to top_k docs), w).
Proof.
  intros [Ha | ->]; unfold rerank.
  - rewrite Ha. reflexivity.
  - rewrite orb_true_r. reflexivity.
Qed.

(** C4: with the model available, a scoring call that raises makes [rerank]
    raise: the exception is not caught and no list is returned.  Evaluated on
    three documents, [top_k = 3] and a model whose [predict] raises. *)
Theorem C4_rerank_propagates_exception :
  fst (rerank (scripted [] Raise Raise []) (mkCrossEncoder true) "q" [0; 1; 2] 3
         (world_of texts3)) = Raise /\
  fst (rerank (scripted [] Raise Raise []) (mkCrossEncoder true) "q" [0; 1; 2] 3
         (world_of texts3)) <> Ret (slice_to 3 [0; 1; 2]).
Proof. split; [vm_compute; reflexivity | vm_compute; discriminate]. Qed.

(** C7: if the model is unavailable or the document list is empty, [rerank]
    returns exactly [docs[:top_k]] and leaves the world as it was: the trace
    is unchanged (no scoring call) and the store is unchanged (no document's
    metadata is written). *)
Theorem C7_rerank_identity (C : collaborators) self query docs top_k w :
  available self = false \/ docs = [] ->
  rerank C self query docs top_k w = (Ret (slice_to top_k docs), w).
Proof. apply rerank_skips. Qed.

Lemma C7_witness :
  (available (mkCrossEncoder false) = false \/ [0; 1; 2] = []) /\
  rerank (scripted [] Raise (Ret [1.5; 2.5; 0.5]%float) []) (mkCrossEncoder false) "q"
         [0; 1; 2] 2 (world_of texts3)
  = (Ret (slice_to 2 [0; 1; 2]), world_of texts3).
Proof.
  split; [left; reflexivity|].
  apply (C7_rerank_identity (scripted [] Raise (Ret [1.5; 2.5; 0.5]%float) [])
           (mkCrossEncoder false) "q" [0; 1; 2] 2 (world_of texts3)).
  left. reflexivity.
Defined.

Lemma slice_to_nil {A : Type} k : slice_to k (@nil A) = [].
Proof. unfold slice_to. destruct (0 <=? k)%Z; apply take_nil. Qed.

Lemma rerank_tied_scores (C : collaborators) self query docs top_k w scores :
  available self = true ->
  model_predict C (trace w) (pairs_of query docs w) = Ret scores ->
  length scores = length docs ->
  (forall a b, In a scores -> In b scores -> PrimFloat.eqb a b = true) ->
  fst (rerank C self query docs top_k w) = Ret (slice_to top_k docs).
Proof.
  intros Ha Hp Hlen Heq. destruct docs as [|d docs].
  - rewrite rerank_skips by (right; reflexivity). reflexivity.
  - rewrite (rerank_scored C self query (d :: docs) top_k w scores Ha ltac:(discriminate) Hp).
    rewrite sort_desc_no_lt.
    + rewrite <- slice_to_map, fst_zip_same_length by (symmetry; exact Hlen). reflexivity.
    + intros x y Hx Hy. unfold score_lt. apply eqb_not_ltb.
      apply Heq; eapply snd_zip_In; eassumption.
Qed.

(** C8: [rerank] sorts by score descending with a stable tie-break.  When
    the model is available and returns scores none of which is NaN, the
    result is the documents of the first [top_k] pairs of a list that is a
    permutation of the (document, score) pairs, in which every pair scores
    at least as much as all the pairs after it, and in which the pairs with
    any one score stand in their input order.  In particular, with one score
    per document and all scores equal, the result is the input list truncated
    to [top_k], in input order. *)
Theorem C8_rerank_stable_descending (C : collaborators) self query docs top_k w scores :
  available self = true ->
  model_predict C (trace w) (pairs_of query docs w) = Ret scores ->
  Forall not_nan scores ->
  exists sorted,
    Permutation sorted (zip docs scores) /\
    StronglySorted fscore_ge sorted /\
    (forall s, List.filter (has_fscore s) sorted = List.filter (has_fscore s) (zip docs scores)) /\
    fst (rerank C self query docs top_k w) = Ret (map fst (slice_to top_k sorted)) /\
    (length scores = length docs ->
     (forall a b, In a scores -> In b scores -> PrimFloat.eqb a b = true) ->
     fst (rerank C self query docs top_k w) = Ret (slice_to top_k docs)).
Proof.
  intros Ha Hp Hnn. exists (sort_desc score_lt (zip docs scores)).
  pose proof (zip_all_scored docs scores Hnn) as Hall.
  split; [apply sort_desc_perm|]. split; [apply sort_fscore_sorted, Hall|].
  split; [intros s; apply sort_fscore_stable, Hall|]. split.
  - destruct docs as [|d docs].
    + rewrite rerank_skips by (right; reflexivity). cbn [zip sort_desc foldr fst].
      rewrite !slice_to_nil. reflexivity.
    + apply rerank_scored; [exact Ha | discriminate | exact Hp].
  - intros Hlen Heq. apply (rerank_tied_scores C self query docs top_k w scores); assumption.
Qed.

Lemma C8_witness :
  exists sorted,
    Permutation sorted (zip [0; 1; 2] [1; 2; 2]%float) /\
    StronglySorted fscore_ge sorted /\
    (forall s, List.filter (has_fscore s) sorted =
               List.filter (has_fscore s) (zip [0; 1; 2] [1; 2; 2]%float)) /\
    fst (rerank (scripted [] Raise (Ret [1; 2; 2]%float) []) (mkCrossEncoder true) "q"
           [0; 1; 2] 3 (world_of texts3)) = Ret (map fst (slice_to 3 sorted)) /\
    (length [1; 2; 2]%float = length [0; 1; 2] ->
     (forall a b, In a [1; 2; 2]%float -> In b [1; 2; 2]%float -> PrimFloat.eqb a b = true) ->
     fst (rerank (scripted [] Raise (Ret [1; 2; 2]%float) []) (mkCrossEncoder true) "q"
            [0; 1; 2] 3 (world_of texts3)) = Ret (slice_to 3 [0; 1; 2])).
Proof.
  apply (C8_rerank_stable_descending (scripted [] Raise (Ret [1; 2; 2]%float) [])
           (mkCrossEncoder true) "q" [0; 1; 2] 3 (world_of texts3) [1; 2; 2]%float).
  - reflexivity.
  - reflexivity.
  - repeat constructor.
Defined.

(** Partial ties and full ties, run: scores 1, 2, 2 put the two documents
    scoring 2 first, in input order; equal scores leave the input order. *)
Example rerank_ties_run :
  fst (rerank (scripted [] Raise (Ret [1; 2; 2]%float) []) (mkCrossEncoder true) "q"
         [0; 1; 2] 3 (world_of texts3)) = Ret [1; 2; 0] /\
  fst (rerank (scripted [] Raise (Ret [0.5; 0.5; 0.5]%float) []) (mkCrossEncoder true) "q"
         [0; 1; 2] 2 (world_of texts3)) = Ret [0; 1].
Proof. split; vm_compute; reflexivity. Qed.

(** Descending order, on distinct scores. *)
Example rerank_orders_by_score :
  fst (rerank (scripted [] Raise (Ret [1.5; 2.5; 0.5]%float) []) (mkCrossEncoder true) "q"
         [0; 1; 2] 2 (world_of texts3)) = Ret [1; 0].
Proof. vm_compute. reflexivity. Qed.

(** *** RetrievalEngine._flashrank_rerank *)

Lemma flashrank_raises_run (C : collaborators) self query docs top_k w :
  flashrank self = true ->
  flashrank_rerank C (trace w) query (passages_of docs w) = Raise ->
  _flashrank_rerank C self query docs top_k w =
    (Ret (slice_to top_k docs), record (EvFlashRank query (passages_of docs w)) w).
Proof.
  intros Hf Hr. unfold _flashrank_rerank. rewrite Hf. cbn [negb].
  apply try_except_raise.
  assert (Hg : gets (passages_of docs) w = (Ret (passages_of docs w), w)) by reflexivity.
  rewrite (bind_run _ _ _ _ _ Hg). apply bind_raise.
  unfold call_flashrank. rewrite Hr. reflexivity.
Qed.

(** C5, as the specification states it, fails: when the FlashRank call
    raises on six documents, the handler returns [docs[:top_k]] with the
    default [top_k = 5], the first five documents, not the six it received. *)
Lemma C5_counterexample :
  ~ (forall (C : collaborators) self query docs top_k w,
       docs <> [] -> flashrank self = true ->
       flashrank_rerank C (trace w) query (passages_of docs w) = Raise ->
       fst (_flashrank_rerank C self query docs top_k w) = Ret docs).
Proof.
  intros H.
  specialize (H (scripted [] Raise Raise []) (mkEngine true (mkCrossEncoder true) 3) "q"
                [0; 1; 2; 3; 4; 5] 5%Z (world_of texts6)
                ltac:(discriminate) eq_refl eq_refl).
  vm_compute in H. discriminate.
Qed.

(** C5, amended: when the FlashRank call raises, the stage catches the
    exception and returns [docs[:top_k]] (the first five documents for the
    default [top_k = 5]), in input order; no document is modified, and the
    list is returned whole when it has at most [top_k] documents. *)
Theorem C5_flashrank_error_path (C : collaborators) self query docs top_k w :
  flashrank self = true ->
  flashrank_rerank C (trace w) query (passages_of docs w) = Raise ->
  _flashrank_rerank C self query docs top_k w =
    (Ret (slice_to top_k docs), record (EvFlashRank query (passages_of docs w)) w) /\
  heap (snd (_flashrank_rerank C self query docs top_k w)) = heap w /\
  ((Z.of_nat (length docs) <= top_k)%Z ->
   fst (_flashrank_rerank C self query docs top_k w) = Ret docs).
Proof.
  intros Hf Hr. rewrite (flashrank_raises_run C self query docs top_k w Hf Hr).
  split; [reflexivity|]. split; [reflexivity|].
  intros Hk. cbn [fst]. rewrite slice_to_all by exact Hk. reflexivity.
Qed.

Lemma C5_witness :
  _flashrank_rerank (scripted [] Raise Raise []) (mkEngine true (mkCrossEncoder true) 3) "q"
      [0; 1; 2; 3; 4; 5] 5 (world_of texts6) =
    (Ret (slice_to 5 [0; 1; 2; 3; 4; 5]),
     record (EvFlashRank "q" (passages_of [0; 1; 2; 3; 4; 5] (world_of texts6)))
            (world_of texts6)).
Proof.
  apply (C5_flashrank_error_path (scripted [] Raise Raise [])
           (mkEngine true (mkCrossEncoder true) 3) "q" [0; 1; 2; 3; 4; 5] 5 (world_of texts6)).
  - reflexivity.
  - reflexivity.
Defined.

(** *** RetrievalEngine.retrieve *)

Lemma call_search_run (C : collaborators) query category top_k w :
  call_search C query category top_k w =
    (fst (retriever_invoke C w query category top_k), searched C query category top_k w).
Proof.
  unfold call_search, searched. destruct (retriever_invoke C w query category top_k).
  reflexivity.
Qed.

(** C9: if the search returns no candidate, [retrieve] returns the empty
    list and the only collaborator call is the search; if it returns exactly
    one candidate, neither reranking model is called and the document is
    handed on as it is: the result is that of the parent expansion run on the
    one document in the world the search left, or the one document itself
    when [use_parent] is off. *)
Theorem C9_retrieve_guards (C : collaborators) self query category top_k use_rerank use_parent w :
  (fst (retriever_invoke C w query category top_k) = Ret [] ->
   retrieve C self query category top_k use_rerank use_parent w =
     (Ret [], searched C query category top_k w)) /\
  (forall doc,
     fst (retriever_invoke C w query category top_k) = Ret [doc] ->
     retrieve C self query category top_k use_rerank use_parent w =
       (if use_parent
        then (let* docs := call_expand C [doc] in ret docs) (searched C query category top_k w)
        else (Ret [doc], searched C query category top_k w)) /\
     trace (snd (retrieve C self query category top_k use_rerank use_parent w)) =
       (trace w ++ EvSearch query category top_k ::
                   (if use_parent then [EvExpand [doc]] else []))%list).
Proof.
  split.
  - intros Hs. unfold retrieve.
    pose proof (call_search_run C query category top_k w) as Hc. rewrite Hs in Hc.
    rewrite (bind_run _ _ _ _ _ Hc). reflexivity.
  - intros doc Hs. unfold retrieve.
    pose proof (call_search_run C query category top_k w) as Hc. rewrite Hs in Hc.
    rewrite (bind_run _ _ _ _ _ Hc).
    assert (He : trace (snd ((let* docs := call_expand C [doc] in ret docs)
                               (searched C query category top_k w))) =
                 (trace w ++ [EvSearch query category top_k; EvExpand [doc]])%list).
    { unfold bind, call_expand, searched, ret. cbn [trace].
      destruct (expand_to_parents C _ [doc]) as [[r|] h]; cbn [snd trace];
        rewrite <- app_assoc; reflexivity. }
    destruct use_rerank, (flashrank self), (available (cross_encoder self)), use_parent;
      (split; [reflexivity | first [exact He | reflexivity]]).
Qed.

Import Engine.

(** * Further properties of the pipeline *)

(** ** The threshold never rejects the best document *)

Module FilterFacts.
Import Float64 Float64Facts.

Lemma scaled_mean_le_max S n M :
  (0 < n)%Z -> (0 <= S <= n * M)%Z -> (M < 2 ^ 53)%Z ->
  (scaled_mean S n <= inject_Z M)%Q.
Proof.
  intros Hn [HS0 HS] HM. unfold scaled_mean, fmul, true_div.
  assert (HM0 : (0 <= M)%Z) by nia.
  destruct (mean_bounds S n 0 M Hn ltac:(lia)) as [Ha0 Ha1].
  change (inject_Z 0) with 0%Q in Ha0.
  pose proof (round64_nonneg _ Ha0) as HA.
  pose proof (round64_mono _ _ Ha0 Ha1) as HA1.
  rewrite (round64_Z M) in HA1 by lia.
  rewrite <- (round64_Z M) by lia.
  pose proof c06_bounds as [Hc0 Hc1].
  assert (HMq : (0 <= inject_Z M)%Q) by (change 0%Q with (inject_Z 0); rewrite <- Zle_Qle; lia).
  apply round64_mono; nra.
Qed.

Lemma best_exists (scored : list (loc * Z)) :
  scored <> [] ->
  exists q, In q scored /\ forall p, In p scored -> (snd p <= snd q)%Z.
Proof.
  induction scored as [|x l IH]; [congruence|]. intros _.
  destruct l as [|y l].
  - exists x. split; [left; reflexivity|]. intros p [<-|[]]. lia.
  - destruct (IH ltac:(discriminate)) as (q & Hq & Hmax).
    destruct (Z_le_gt_dec (snd x) (snd q)) as [Hle|Hgt].
    + exists q. split; [right; exact Hq|]. intros p [<-|Hp]; [exact Hle | apply Hmax, Hp].
    + exists x. split; [left; reflexivity|]. intros p [<-|Hp]; [lia|].
      specialize (Hmax p Hp). lia.
Qed.

Lemma threshold_ge_min min_score scored :
  (inject_Z min_score <= dynamic_threshold min_score scored)%Q.
Proof.
  unfold dynamic_threshold.
  destruct (max_int_float_cases min_score (fmul (avg_score scored) c06)) as [[H ->]|[H ->]]; lra.
Qed.

(** A best-scoring document that reaches [min_score] meets the threshold. *)
Lemma best_meets_threshold min_score scored q :
  Forall (fun p => (0 <= snd p <= 100)%Z) scored ->
  In q scored -> (forall p, In p scored -> (snd p <= snd q)%Z) ->
  (min_score <= snd q)%Z ->
  int_ge (snd q) (dynamic_threshold min_score scored) = true.
Proof.
  intros Hall Hq Hmax Hm. apply int_ge_true. rewrite dynamic_threshold_eq.
  apply max_int_float_lub. split; [rewrite <- Zle_Qle; exact Hm|].
  assert (Hn : (0 < Z.of_nat (length scored))%Z) by (destruct scored; [contradiction | cbn; lia]).
  assert (Hq100 : (0 <= snd q <= 100)%Z).
  { rewrite List.Forall_forall in Hall. apply Hall, Hq. }
  apply scaled_mean_le_max; [exact Hn| |lia].
  split.
  - pose proof (sum_bounds 0 100 scored Hall). lia.
  - apply (sum_bounds 0 (snd q)). apply List.Forall_forall. intros p Hp.
    rewrite List.Forall_forall in Hall. specialize (Hall p Hp). specialize (Hmax p Hp). lia.
Qed.

Lemma slice_to_sublist {A : Type} k (l : list A) : sublist (slice_to k l) l.
Proof. unfold slice_to. destruct (0 <=? k)%Z; apply sublist_take. Qed.

Lemma slice_to_In {A : Type} k (l : list A) x : In x (slice_to k l) -> In x l.
Proof.
  rewrite <- !list_elem_of_In. intros H. eapply elem_of_sublist; [exact H|].
  apply slice_to_sublist.
Qed.

Lemma filter_nil_iff {A : Type} (P : A -> bool) l :
  List.filter P l = [] <-> forall x, In x l -> P x = false.
Proof.
  induction l as [|x l IH]; cbn; [tauto|].
  destruct (P x) eqn:E; split.
  - discriminate.
  - intros H. specialize (H x (or_introl eq_refl)). congruence.
  - intros H y [<-|Hy]; [exact E | apply IH; assumption].
  - intros H. apply IH. intros y Hy. apply H. right. exact Hy.
Qed.

Lemma filter_by_threshold_nil_iff min_score scored :
  filter_by_threshold min_score scored = [] <->
  forall p, In p scored -> int_ge (snd p) (dynamic_threshold min_score scored) = false.
Proof.
  unfold filter_by_threshold. rewrite <- filter_nil_iff.
  destruct (List.filter _ scored); cbn; split; congruence.
Qed.

(** The threshold step keeps nothing exactly when every score is below
    [min_score]. *)
Lemma fallback_iff_all_below min_score scored :
  scored <> [] ->
  Forall (fun p => (0 <= snd p <= 100)%Z) scored ->
  (filter_by_threshold min_score scored = [] <->
   forall p, In p scored -> (snd p < min_score)%Z).
Proof.
  intros Hne Hall. rewrite filter_by_threshold_nil_iff. split.
  - intros Hnone p Hp.
    destruct (best_exists scored Hne) as (q & Hq & Hmax).
    destruct (Z_lt_le_dec (snd q) min_score) as [Hlt|Hge].
    + specialize (Hmax p Hp). lia.
    + specialize (Hnone q Hq).
      rewrite (best_meets_threshold min_score scored q Hall Hq Hmax Hge) in Hnone.
      discriminate.
  - intros Hbelow p Hp. destruct (int_ge (snd p) _) eqn:E; [|reflexivity].
    apply int_ge_true in E. pose proof (threshold_ge_min min_score scored) as Ht.
    specialize (Hbelow p Hp). rewrite Zlt_Qlt in Hbelow. lra.
Qed.

End FilterFacts.
Import FilterFacts.

(** X1: for a non-empty list of documents, the fallback of
    [filter_documents] runs exactly when every oracle score is below
    [min_score]: the 0.6 * mean part of the dynamic threshold never empties
    the result by itself.  In that case the result is the two best documents
    (all of them, if fewer), otherwise the documents that meet the
    threshold. *)
Theorem X1_fallback_iff_all_scores_below_min (C : collaborators) query docs min_score w :
  docs <> [] ->
  exists scored w',
    score_documents C query docs w = (Ret scored, w') /\
    map fst scored = docs /\
    (filter_by_threshold min_score scored = [] <->
     forall p, In p scored -> (snd p < min_score)%Z) /\
    ((forall p, In p scored -> (snd p < min_score)%Z) ->
     filter_documents C query docs min_score w = (Ret (top_two scored), w')) /\
    ((exists p, In p scored /\ (min_score <= snd p)%Z) ->
     filter_documents C query docs min_score w =
       (Ret (filter_by_threshold min_score scored), w')).
Proof.
  intros Hne.
  destruct (filter_documents_run C query docs min_score w Hne)
    as (scored & w' & Hrun & Hfst & Hrange & Hres).
  assert (Hsc : scored <> []) by (intros ->; cbn in Hfst; congruence).
  pose proof (fallback_iff_all_below min_score scored Hsc Hrange) as Hiff.
  exists scored, w'. split; [exact Hrun|]. split; [exact Hfst|]. split; [exact Hiff|]. split.
  - intros Hbelow. rewrite Hres, select_documents_fallback; [reflexivity|exact Hsc|].
    apply (proj2 Hiff), Hbelow.
  - intros (p & Hp & Hge). rewrite Hres, select_documents_kept; [reflexivity|].
    intros Hnil. pose proof (proj1 Hiff Hnil p Hp). lia.
Qed.

Lemma X1_witness :
  exists scored w',
    score_documents (oracle ["24"; "0"; "0"]) "q" [0; 1; 2] (world_of texts3) = (Ret scored, w') /\
    map fst scored = [0; 1; 2] /\
    (filter_by_threshold 25 scored = [] <->
     forall p, In p scored -> (snd p < 25)%Z) /\
    ((forall p, In p scored -> (snd p < 25)%Z) ->
     filter_documents (oracle ["24"; "0"; "0"]) "q" [0; 1; 2] 25 (world_of texts3)
       = (Ret (top_two scored), w')) /\
    ((exists p, In p scored /\ (25 <= snd p)%Z) ->
     filter_documents (oracle ["24"; "0"; "0"]) "q" [0; 1; 2] 25 (world_of texts3) =
       (Ret (filter_by_threshold 25 scored), w')).
Proof.
  apply (X1_fallback_iff_all_scores_below_min (oracle ["24"; "0"; "0"]) "q" [0; 1; 2] 25
           (world_of texts3)).
  discriminate.
Defined.

(** X2: whatever the oracle answers, the result of [filter_documents] on a
    non-empty list contains a document with the highest score, and every
    returned document is one of the input documents. *)
Theorem X2_best_document_is_returned (C : collaborators) query docs min_score w :
  docs <> [] ->
  exists scored result w',
    score_documents C query docs w = (Ret scored, w') /\
    filter_documents C query docs min_score w = (Ret result, w') /\
    (exists q, In q scored /\ (forall p, In p scored -> (snd p <= snd q)%Z) /\
               In (fst q) result) /\
    (forall d, In d result -> In d docs).
Proof.
  intros Hne.
  destruct (filter_documents_run C query docs min_score w Hne)
    as (scored & w' & Hrun & Hfst & Hrange & Hres).
  assert (Hsc : scored <> []) by (intros ->; cbn in Hfst; congruence).
  exists scored, (select_documents min_score scored), w'.
  split; [exact Hrun|]. split; [exact Hres|].
  destruct (filter_by_threshold min_score scored) as [|d0 ds] eqn:E.
  - rewrite select_documents_fallback by assumption.
    unfold top_two.
    pose proof (sort_desc_perm relevance_lt scored) as Hperm.
    pose proof (sort_relevance_sorted scored) as Hsorted.
    destruct (sort_desc relevance_lt scored) as [|h t] eqn:Es.
    { apply Permutation_nil in Hperm. congruence. }
    split.
    + exists h. split; [eapply Permutation_in; [exact Hperm | left; reflexivity]|].
      split.
      * intros p Hp. apply (Permutation_in _ (Permutation_sym Hperm)) in Hp.
        destruct Hp as [<-|Hp]; [lia|].
        apply StronglySorted_inv in Hsorted as [_ Hall].
        rewrite List.Forall_forall in Hall. apply Hall, Hp.
      * unfold slice_to. cbn. left. reflexivity.
    + intros d Hd. rewrite <- Hfst. apply in_map_iff in Hd as (p & <- & Hp).
      apply in_map. eapply Permutation_in; [exact Hperm|].
      eapply slice_to_In. exact Hp.
  - rewrite select_documents_kept by (rewrite E; discriminate).
    destruct (best_exists scored Hsc) as (q & Hq & Hmax).
    split.
    + exists q. split; [exact Hq|]. split; [exact Hmax|].
      assert (Hin : In d0 (filter_by_threshold min_score scored)) by (rewrite E; left; reflexivity).
      unfold filter_by_threshold in Hin. apply in_map_iff in Hin as (p & _ & Hp).
      apply List.filter_In in Hp as [Hp Hge].
      apply int_ge_true in Hge. pose proof (threshold_ge_min min_score scored) as Ht.
      assert (Hpm : (min_score <= snd p)%Z) by (rewrite Zle_Qle; lra).
      unfold filter_by_threshold. apply (in_map fst). apply List.filter_In.
      split; [exact Hq|]. apply best_meets_threshold; try assumption.
      specialize (Hmax p Hp). lia.
    + intros d Hd.
      pose proof (filter_by_threshold_sublist min_score scored) as Hsub.
      rewrite Hfst in Hsub. rewrite <- list_elem_of_In in *.
      eapply elem_of_sublist; eassumption.
Qed.

Lemma X2_witness :
  exists scored result w',
    score_documents (oracle ["100"; "0"; "0"]) "q" [0; 1; 2] (world_of texts3) = (Ret scored, w') /\
    filter_documents (oracle ["100"; "0"; "0"]) "q" [0; 1; 2] 25 (world_of texts3) = (Ret result, w') /\
    (exists q, In q scored /\ (forall p, In p scored -> (snd p <= snd q)%Z) /\
               In (fst q) result) /\
    (forall d, In d result -> In d [0; 1; 2]).
Proof.
  apply (X2_best_document_is_returned (oracle ["100"; "0"; "0"]) "q" [0; 1; 2] 25 (world_of texts3)).
  discriminate.
Defined.

(** ** What the scoring loop does to the store and the trace *)

Module EffectFacts.

Lemma with_metadata_twice key v1 v2 doc :
  with_metadata key v2 (with_metadata key v1 doc) = with_metadata key v2 doc.
Proof. unfold with_metadata. cbn. rewrite insert_insert_eq. reflexivity. Qed.

Lemma set_metadata_heap doc key v w d :
  heap (snd (set_metadata doc key v w)) !! d =
  if decide (doc = d) then with_metadata key v <$> heap w !! d else heap w !! d.
Proof.
  unfold set_metadata. cbn [snd heap]. rewrite lookup_alter.
  destruct (decide (doc = d)) as [->|]; reflexivity.
Qed.

Lemma set_metadata_trace doc key v w : trace (snd (set_metadata doc key v w)) = trace w.
Proof. reflexivity. Qed.

Lemma set_metadata_content doc key v w d :
  content (snd (set_metadata doc key v w)) d = content w d.
Proof.
  unfold content. rewrite set_metadata_heap.
  destruct (decide (doc = d)); [|reflexivity].
  destruct (heap w !! d); reflexivity.
Qed.

Section Scoring.
Variable C : collaborators.
Variable query : string.

Lemma score_documents_cons doc docs w scored w' :
  score_documents C query (doc :: docs) w = (Ret scored, w') ->
  exists s scored',
    scored = (doc, s) :: scored' /\ (0 <= s <= 100)%Z /\
    score_documents C query docs
      (snd (set_metadata doc relevance_key (VInt s) (record (EvLLM (asked query doc w)) w)))
      = (Ret scored', w').
Proof.
  unfold score_documents. cbn [mapM].
  rewrite (bind_run _ _ _ _ _ (score_document_run C query doc w)).
  set (s := snd (verdict_of (llm_invoke C (trace w) (asked query doc w)))).
  set (w1 := snd (set_metadata doc "relevance_score" (VInt s) _)).
  destruct (score_documents_run C query docs w1) as (scored' & w2 & Hrun & _).
  unfold score_documents in Hrun. rewrite (bind_run _ _ _ _ _ Hrun).
  unfold ret. intros [= <- <-]. exists s, scored'.
  split; [reflexivity|]. split; [apply verdict_of_range | exact Hrun].
Qed.

Lemma score_documents_effects docs : forall w scored w',
  score_documents C query docs w = (Ret scored, w') ->
  trace w' = (trace w ++ map (fun d => EvLLM (asked query d w)) docs)%list /\
  forall d,
    (~ In d docs /\ heap w' !! d = heap w !! d) \/
    (exists s, In (d, s) scored /\
               heap w' !! d = with_metadata relevance_key (VInt s) <$> heap w !! d).
Proof.
  induction docs as [|doc docs IH]; intros w scored w' Hrun.
  - cbn in Hrun. injection Hrun as <- <-. split; [rewrite app_nil_r; reflexivity|].
    intros d. left. split; [intros []|reflexivity].
  - apply score_documents_cons in Hrun as (s & scored' & -> & _ & Hrun).
    set (w1 := snd (set_metadata doc relevance_key (VInt s)
                      (record (EvLLM (asked query doc w)) w))) in *.
    destruct (IH w1 scored' w' Hrun) as [Htr Hst].
    assert (Hasked : forall d, asked query d w1 = asked query d w).
    { intros d. unfold asked, w1. rewrite set_metadata_content. reflexivity. }
    assert (Hh : forall d, heap w1 !! d =
               if decide (doc = d) then with_metadata relevance_key (VInt s) <$> heap w !! d
               else heap w !! d).
    { intros d. unfold w1. rewrite set_metadata_heap. reflexivity. }
    split.
    + rewrite Htr. unfold w1. rewrite set_metadata_trace. cbn [record trace map].
      rewrite <- app_assoc. cbn [app]. do 2 f_equal.
      apply map_ext. intros d. f_equal. apply Hasked.
    + intros d. specialize (Hh d). destruct (Hst d) as [[Hnin Heq]|(s' & Hin & Heq)].
      * destruct (decide (doc = d)) as [->|Hne].
        -- right. exists s. split; [left; reflexivity|]. rewrite Heq, Hh. reflexivity.
        -- left. split; [intros [?|?]; congruence|]. rewrite Heq, Hh. reflexivity.
      * right. exists s'. split; [right; exact Hin|]. rewrite Heq, Hh.
        destruct (decide (doc = d)); [|reflexivity].
        destruct (heap w !! d); cbn; [|reflexivity].
        rewrite with_metadata_twice. reflexivity.
Qed.

End Scoring.
End EffectFacts.
Import EffectFacts.

(** X3: on a non-empty list, [filter_documents] asks the oracle exactly once
    per input document, in input order, with the prompt built from the
    query and the document's content, and calls no other collaborator. *)
Theorem X3_one_oracle_call_per_document (C : collaborators) query docs min_score w :
  docs <> [] ->
  trace (snd (filter_documents C query docs min_score w)) =
    (trace w ++ map (fun d => EvLLM (relevance_prompt query (content w d))) docs)%list.
Proof.
  intros Hne.
  destruct (filter_documents_run C query docs min_score w Hne)
    as (scored & w' & Hrun & _ & _ & Hres).
  rewrite Hres. cbn [snd].
  apply (score_documents_effects C query docs w scored w' Hrun).
Qed.

Lemma X3_witness :
  trace (snd (filter_documents (oracle ["100"; "0"; "0"]) "q" [0; 1; 2] 25 (world_of texts3))) =
    (trace (world_of texts3) ++
     map (fun d => EvLLM (relevance_prompt "q" (content (world_of texts3) d))) [0; 1; 2])%list.
Proof.
  apply (X3_one_oracle_call_per_document (oracle ["100"; "0"; "0"]) "q" [0; 1; 2] 25
           (world_of texts3)).
  discriminate.
Defined.

(** X4: [filter_documents] writes the oracle's score, an integer in
    [0, 100], under the key "relevance_score" of every input document, kept
    or discarded, and changes nothing else: the content and the other
    metadata keys of an input document stay, and a document that is not in
    the input list is untouched. *)
Theorem X4_relevance_score_written (C : collaborators) query docs min_score w :
  docs <> [] ->
  exists scored w',
    score_documents C query docs w = (Ret scored, w') /\
    snd (filter_documents C query docs min_score w) = w' /\
    (forall d, ~ In d docs -> heap w' !! d = heap w !! d) /\
    (forall d doc, In d docs -> heap w !! d = Some doc ->
       exists s, In (d, s) scored /\ (0 <= s <= 100)%Z /\
                 heap w' !! d = Some (with_metadata relevance_key (VInt s) doc)).
Proof.
  intros Hne.
  destruct (filter_documents_run C query docs min_score w Hne)
    as (scored & w' & Hrun & Hfst & Hrange & Hres).
  destruct (score_documents_effects C query docs w scored w' Hrun) as [_ Hst].
  exists scored, w'. split; [exact Hrun|]. split; [rewrite Hres; reflexivity|]. split.
  - intros d Hnin. destruct (Hst d) as [[_ Heq]|(s & Hin & _)]; [exact Heq|].
    exfalso. apply Hnin. rewrite <- Hfst. apply (in_map fst _ _ Hin).
  - intros d doc Hin Hdoc. destruct (Hst d) as [[Hnin _]|(s & Hs & Heq)]; [contradiction|].
    exists s. split; [exact Hs|]. split.
    + rewrite List.Forall_forall in Hrange. apply (Hrange _ Hs).
    + rewrite Heq, Hdoc. reflexivity.
Qed.

Lemma X4_witness :
  exists scored w',
    score_documents (oracle ["100"; "0"; "0"]) "q" [0; 1; 2] (world_of texts3) = (Ret scored, w') /\
    snd (filter_documents (oracle ["100"; "0"; "0"]) "q" [0; 1; 2] 25 (world_of texts3)) = w' /\
    (forall d, ~ In d [0; 1; 2] -> heap w' !! d = heap (world_of texts3) !! d) /\
    (forall d doc, In d [0; 1; 2] -> heap (world_of texts3) !! d = Some doc ->
       exists s, In (d, s) scored /\ (0 <= s <= 100)%Z /\
                 heap w' !! d = Some (with_metadata relevance_key (VInt s) doc)).
Proof.
  apply (X4_relevance_score_written (oracle ["100"; "0"; "0"]) "q" [0; 1; 2] 25 (world_of texts3)).
  discriminate.
Defined.

(** ** Reading back a number the oracle wrote *)

Module ParseFacts.

Lemma str_take_app a rest n :
  (String.length a <= n)%nat ->
  str_take n (a ++ rest) = (a ++ str_take (n - String.length a) rest)%string.
Proof.
  revert n. induction a as [|c a IH]; intros n Hn; simpl in *.
  - rewrite Nat.sub_0_r. reflexivity.
  - destruct n as [|n]; [lia|]. simpl. rewrite IH by lia. reflexivity.
Qed.

Lemma digits_of_app a b : digits_of (a ++ b) = (digits_of a ++ digits_of b)%list.
Proof.
  unfold digits_of. induction a as [|c a IH]; [reflexivity|].
  simpl. rewrite IH. destruct (isdigit c); reflexivity.
Qed.

Lemma str_take_take n m s : (n <= m)%nat -> str_take n (str_take m s) = str_take n s.
Proof.
  revert m s. induction n as [|n IH]; intros m s Hnm; [destruct (str_take m s); reflexivity|].
  destruct m as [|m]; [lia|]. destruct s as [|c s]; [reflexivity|].
  cbn [str_take]. rewrite IH by lia. reflexivity.
Qed.

Lemma digits_of_take_nil n s :
  digits_of s = [] -> digits_of (str_take n s) = [].
Proof.
  unfold digits_of. revert n. induction s as [|c s IH]; intros n H.
  - destruct n; reflexivity.
  - destruct n as [|n]; [reflexivity|]. cbn [str_take list_ascii_of_string List.filter] in *.
    destruct (isdigit c); [discriminate|]. apply IH, H.
Qed.

Lemma no_digit_ahead_take n rest :
  (n <= 5)%nat -> no_digit_ahead rest -> digits_of (str_take n rest) = [].
Proof.
  intros Hn H. rewrite <- (str_take_take n 5) by exact Hn.
  apply digits_of_take_nil, H.
Qed.

Lemma reads_back_all : forallb reads_back (Float64.Zrange 0 1000) = true.
Proof. vm_compute. reflexivity. Qed.

Lemma reads_back_range n : (0 <= n <= 999)%Z -> reads_back n = true.
Proof.
  intros Hn. pose proof reads_back_all as H. rewrite forallb_forall in H.
  apply H. unfold Float64.Zrange. apply in_map_iff. exists (Z.to_nat n).
  split; [lia|]. apply in_seq. lia.
Qed.

Lemma parse_score_number n rest :
  (0 <= n <= 999)%Z -> no_digit_ahead rest ->
  parse_score (str_of_int n ++ rest) = Some (Z.min n 100).
Proof.
  intros Hn Hrest. pose proof (reads_back_range n Hn) as Hrb.
  unfold reads_back in Hrb. apply andb_prop in Hrb as [Hlen Hint].
  apply Nat.leb_le in Hlen.
  unfold parse_score. rewrite str_take_app by exact Hlen.
  rewrite digits_of_app, (no_digit_ahead_take _ rest) by (lia || exact Hrest).
  rewrite app_nil_r.
  destruct (int_of_digits (digits_of (str_of_int n))) as [m|]; [|discriminate].
  apply Z.eqb_eq in Hint. subst m. reflexivity.
Qed.

End ParseFacts.
Import ParseFacts.

(** X5: a number the oracle writes is read back.  If the reply is the
    decimal form of an integer n in [0, 999], followed by any ASCII text
    with no digit among its first five characters, [check_relevance] returns
    the score min(n, 100), so every score from 0 to 100 is read back exactly,
    and the verdict is relevant exactly when that score is at least 25. *)
Theorem X5_number_reply_is_read_back (C : collaborators) query doc w n rest :
  (0 <= n <= 999)%Z -> is_ascii (str_take 5 rest) -> no_digit_ahead rest ->
  llm_invoke C (trace w) (asked query doc w) = Ret (str_of_int n ++ rest)%string ->
  fst (check_relevance C query doc w) = Ret ((25 <=? Z.min n 100)%Z, Z.min n 100).
Proof.
  intros Hn _ Hrest Hreply. rewrite check_relevance_run, Hreply. cbn [fst].
  unfold verdict_of. rewrite parse_score_number by assumption. reflexivity.
Qed.

Lemma X5_witness :
  fst (check_relevance (oracle ["85 (highly relevant)"]) "q" 0 (world_of texts3))
  = Ret ((25 <=? Z.min 85 100)%Z, Z.min 85 100).
Proof.
  apply (X5_number_reply_is_read_back (oracle ["85 (highly relevant)"]) "q" 0 (world_of texts3)
           85 " (highly relevant)").
  - lia.
  - reflexivity.
  - reflexivity.
  - reflexivity.
Defined.

(** ** The cross-encoder stage *)

Module RerankFacts.

Lemma zip_fst_In {A B : Type} (xs : list A) (ys : list B) p :
  In p (Py.zip xs ys) -> In (fst p) xs.
Proof.
  revert ys. induction xs as [|x xs IH]; intros [|y ys] H; cbn in *; try tauto.
  destruct H as [<-|H]; [left; reflexivity | right; eapply IH; exact H].
Qed.

Lemma zip_length_le {A B : Type} (xs : list A) (ys : list B) :
  length (Py.zip xs ys) <= length xs.
Proof.
  revert ys. induction xs as [|x xs IH]; intros [|y ys]; cbn; try lia.
  specialize (IH ys). lia.
Qed.

Lemma slice_to_length_nonneg {A : Type} k (l : list A) :
  (0 <= k)%Z -> length (slice_to k l) <= Z.to_nat k.
Proof.
  intros H. unfold slice_to. apply Z.leb_le in H. rewrite H, length_take. lia.
Qed.

(** The comparison of floats is asymmetric. *)
Lemma compare_cont_swap m1 m2 :
  Pos.compare_cont Eq m2 m1 = CompOpp (Pos.compare_cont Eq m1 m2).
Proof. rewrite Pos.compare_cont_antisym. reflexivity. Qed.

Lemma SFcompare_Lt_Gt a b : SFcompare a b = Some Lt -> SFcompare b a = Some Gt.
Proof.
  destruct a as [sa|sa| |sa ma ea], b as [sb|sb| |sb mb eb]; cbn;
    try discriminate; try (destruct sa; discriminate || reflexivity);
    try (destruct sb; discriminate || reflexivity);
    try (destruct sa, sb; discriminate || reflexivity).
  destruct sa, sb; try discriminate; try reflexivity;
    rewrite (Z.compare_antisym ea eb), (compare_cont_swap ma mb);
    destruct (ea ?= eb)%Z; cbn; try discriminate; try reflexivity;
    destruct (Pos.compare_cont Eq ma mb); cbn; try discriminate; reflexivity.
Qed.

Lemma ltb_asym (a b : float) : PrimFloat.ltb a b = true -> PrimFloat.ltb b a = false.
Proof.
  rewrite !FloatAxioms.ltb_spec. unfold SFltb.
  destruct (SFcompare (Prim2SF a) (Prim2SF b)) as [[]|] eqn:E; try discriminate.
  rewrite (SFcompare_Lt_Gt _ _ E). reflexivity.
Qed.

Lemma insert_score_sorted x l :
  Sorted not_below l -> Sorted not_below (insert_desc score_lt x l).
Proof.
  induction 1 as [|y l Hs IH Hhd]; cbn [insert_desc].
  - repeat constructor.
  - destruct (score_lt x y) eqn:E.
    + constructor; [exact IH|].
      destruct l as [|z l]; cbn [insert_desc].
      * constructor. unfold not_below. apply ltb_asym. exact E.
      * destruct (score_lt x z) eqn:Ez.
        -- constructor. inversion Hhd; assumption.
        -- constructor. unfold not_below. apply ltb_asym. exact E.
    + constructor; [constructor; assumption|]. constructor. exact E.
Qed.

Lemma sort_score_sorted l : Sorted not_below (sort_desc score_lt l).
Proof.
  induction l as [|x l IH]; [constructor|]. apply insert_score_sorted, IH.
Qed.

(** What the annotation loop does. *)
Lemma mapM_annotate_effects l : forall w,
  mapM annotate l w = (Ret (map fst l), snd (mapM annotate l w)) /\
  trace (snd (mapM annotate l w)) = trace w /\
  forall d,
    (~ In d (map fst l) /\ heap (snd (mapM annotate l w)) !! d = heap w !! d) \/
    (exists s, In (d, s) l /\
       heap (snd (mapM annotate l w)) !! d =
       with_metadata cross_encoder_key (VFloat s) <$> heap w !! d).
Proof.
  induction l as [|[d0 s0] l IH]; intros w.
  - split; [reflexivity|]. split; [reflexivity|]. intros d. left. split; [intros []|reflexivity].
  - cbn [mapM].
    assert (Ha : annotate (d0, s0) w =
                 (Ret d0, snd (set_metadata d0 cross_encoder_key (VFloat s0) w))) by reflexivity.
    rewrite (bind_run _ _ _ _ _ Ha).
    set (w1 := snd (set_metadata d0 cross_encoder_key (VFloat s0) w)).
    destruct (IH w1) as (Hrun & Htr & Hst).
    rewrite (bind_run _ _ _ _ _ Hrun). cbn [ret snd fst map].
    split; [reflexivity|]. split; [rewrite Htr; reflexivity|].
    intros d. specialize (Hst d).
    assert (Hh : heap w1 !! d =
                 if decide (d0 = d) then with_metadata cross_encoder_key (VFloat s0) <$> heap w !! d
                 else heap w !! d) by apply EffectFacts.set_metadata_heap.
    destruct Hst as [[Hnin Heq]|(s & Hin & Heq)].
    + destruct (decide (d0 = d)) as [->|Hne].
      * right. exists s0. split; [left; reflexivity|]. rewrite Heq, Hh. reflexivity.
      * left. split; [intros [?|?]; congruence|]. rewrite Heq, Hh. reflexivity.
    + right. exists s. split; [right; exact Hin|]. rewrite Heq, Hh.
      destruct (decide (d0 = d)); [|reflexivity].
      destruct (heap w !! d); cbn; [|reflexivity].
      rewrite EffectFacts.with_metadata_twice. reflexivity.
Qed.

Section Rerank.
Variable C : collaborators.

(** The three ways [rerank] can go. *)
Lemma rerank_cases self query docs top_k w :
  (available self = false \/ docs = []) /\
    rerank C self query docs top_k w = (Ret (slice_to top_k docs), w)
  \/
  (available self = true /\ docs <> [] /\
   model_predict C (trace w) (pairs_of query docs w) = Raise /\
   rerank C self query docs top_k w = (Raise, record (EvPredict (pairs_of query docs w)) w))
  \/
  (exists scores,
     available self = true /\ docs <> [] /\
     model_predict C (trace w) (pairs_of query docs w) = Ret scores /\
     rerank C self query docs top_k w =
       mapM annotate (slice_to top_k (sort_desc score_lt (zip docs scores)))
            (record (EvPredict (pairs_of query docs w)) w)).
Proof.
  destruct (available self) eqn:Ha.
  2:{ left. split; [left; reflexivity|]. apply rerank_skips. left. exact Ha. }
  destruct docs as [|d docs].
  { left. split; [right; reflexivity|]. apply rerank_skips. right. reflexivity. }
  right.
  destruct (model_predict C (trace w) (pairs_of query (d :: docs) w)) as [scores|] eqn:Hp.
  - right. exists scores. repeat split; try discriminate.
    unfold rerank. rewrite Ha. cbn [negb orb is_nil].
    assert (Hg : gets (pairs_of query (d :: docs)) w = (Ret (pairs_of query (d :: docs) w), w))
      by reflexivity.
    rewrite (bind_run _ _ _ _ _ Hg).
    assert (Hc : call_predict C (pairs_of query (d :: docs) w) w =
                 (Ret scores, record (EvPredict (pairs_of query (d :: docs) w)) w)).
    { unfold call_predict. rewrite Hp. reflexivity. }
    rewrite (bind_run _ _ _ _ _ Hc). reflexivity.
  - left. repeat split; try discriminate.
    apply rerank_predict_raises; [exact Ha|discriminate|exact Hp].
Qed.

Lemma rerank_returns self query docs top_k w result w' :
  rerank C self query docs top_k w = (Ret result, w') ->
  (forall d, In d result -> In d docs) /\
  length result <= length docs /\
  ((0 <= top_k)%Z -> length result <= Z.to_nat top_k).
Proof.
  intros Hrun.
  destruct (rerank_cases self query docs top_k w)
    as [[_ H]|[(_ & _ & _ & H)|(scores & _ & _ & _ & H)]]; rewrite H in Hrun.
  - injection Hrun as <- <-. split; [intros d; apply FilterFacts.slice_to_In|].
    split; [apply slice_to_length_le | apply slice_to_length_nonneg].
  - discriminate.
  - destruct (mapM_annotate_effects (slice_to top_k (sort_desc score_lt (zip docs scores)))
                (record (EvPredict (pairs_of query docs w)) w)) as (Hm & _).
    rewrite Hm in Hrun. injection Hrun as <- _.
    split; [|split].
    + intros d Hd. apply in_map_iff in Hd as (p & <- & Hp).
      apply FilterFacts.slice_to_In in Hp.
      apply (Permutation_in _ (sort_desc_perm score_lt _)) in Hp.
      eapply zip_fst_In. exact Hp.
    + rewrite length_map.
      pose proof (slice_to_length_le top_k (sort_desc score_lt (zip docs scores))).
      rewrite sort_desc_length in H0. pose proof (zip_length_le docs scores). lia.
    + intros Hk. rewrite length_map. apply slice_to_length_nonneg, Hk.
Qed.

End Rerank.
End RerankFacts.
Import RerankFacts.

(** X6: whenever [rerank] returns, whatever the model answered, every
    returned document is one of the input documents, the result is no longer
    than the input, and for [top_k >= 0] it has at most [top_k] documents. *)
Theorem X6_rerank_truncation_bound (C : collaborators) self query docs top_k w result w' :
  rerank C self query docs top_k w = (Ret result, w') ->
  (forall d, In d result -> In d docs) /\
  length result <= length docs /\
  ((0 <= top_k)%Z -> length result <= Z.to_nat top_k).
Proof. apply rerank_returns. Qed.

Lemma X6_witness :
  (forall d, In d [1; 0] -> In d [0; 1; 2]) /\
  length [1; 0] <= length [0; 1; 2] /\
  ((0 <= 2)%Z -> length [1; 0] <= Z.to_nat 2).
Proof.
  apply (X6_rerank_truncation_bound (scripted [] Raise (Ret [1.5; 2.5; 0.5]%float) [])
           (mkCrossEncoder true) "q" [0; 1; 2] 2 (world_of texts3) [1; 0]
           (snd (rerank (scripted [] Raise (Ret [1.5; 2.5; 0.5]%float) [])
                   (mkCrossEncoder true) "q" [0; 1; 2] 2 (world_of texts3)))).
  apply run_fst. vm_compute. reflexivity.
Defined.

(** X7: when the model is available, the list is non-empty and the scoring
    call returns, [rerank] makes exactly that one call, writes
    "cross_encoder_score" on every returned document with a score the model
    gave, and changes nothing else: content and other metadata keys of a
    returned document stay, and a document that is not returned is untouched
    (it gets no score). *)
Theorem X7_rerank_annotates_returned_only (C : collaborators) self query docs top_k w scores :
  available self = true -> docs <> [] ->
  model_predict C (trace w) (pairs_of query docs w) = Ret scores ->
  exists result w',
    rerank C self query docs top_k w = (Ret result, w') /\
    trace w' = (trace w ++ [EvPredict (pairs_of query docs w)])%list /\
    (forall d, ~ In d result -> heap w' !! d = heap w !! d) /\
    (forall d doc, In d result -> heap w !! d = Some doc ->
       exists s, In s scores /\
                 heap w' !! d = Some (with_metadata cross_encoder_key (VFloat s) doc)).
Proof.
  intros Ha Hne Hp.
  destruct (rerank_cases C self query docs top_k w)
    as [[[H|H] _]|[(_ & _ & H & _)|(scores' & _ & _ & Hp' & Hrun)]]; try congruence.
  rewrite Hp in Hp'. injection Hp' as <-.
  set (sel := slice_to top_k (sort_desc score_lt (zip docs scores))) in *.
  set (w1 := record (EvPredict (pairs_of query docs w)) w) in *.
  destruct (mapM_annotate_effects sel w1) as (Hm & Htr & Hst).
  exists (map fst sel), (snd (mapM annotate sel w1)).
  split; [rewrite Hrun; exact Hm|]. split; [rewrite Htr; reflexivity|]. split.
  - intros d Hnin. destruct (Hst d) as [[_ Heq]|(s & Hin & _)]; [exact Heq|].
    exfalso. apply Hnin. apply (in_map fst _ _ Hin).
  - intros d doc Hin Hdoc. destruct (Hst d) as [[Hnin _]|(s & Hs & Heq)]; [contradiction|].
    exists s. split.
    + apply FilterFacts.slice_to_In in Hs.
      apply (Permutation_in _ (sort_desc_perm score_lt _)) in Hs.
      apply (snd_zip_In _ _ _ Hs).
    + rewrite Heq. cbn [heap w1 record]. rewrite Hdoc. reflexivity.
Qed.

Lemma X7_witness :
  exists result w',
    rerank (scripted [] Raise (Ret [1.5; 2.5; 0.5]%float) []) (mkCrossEncoder true) "q"
           [0; 1; 2] 2 (world_of texts3) = (Ret result, w') /\
    trace w' = (trace (world_of texts3) ++
                [EvPredict (pairs_of "q" [0; 1; 2] (world_of texts3))])%list /\
    (forall d, ~ In d result -> heap w' !! d = heap (world_of texts3) !! d) /\
    (forall d doc, In d result -> heap (world_of texts3) !! d = Some doc ->
       exists s, In s [1.5; 2.5; 0.5]%float /\
                 heap w' !! d = Some (with_metadata cross_encoder_key (VFloat s) doc)).
Proof.
  apply (X7_rerank_annotates_returned_only (scripted [] Raise (Ret [1.5; 2.5; 0.5]%float) [])
           (mkCrossEncoder true) "q" [0; 1; 2] 2 (world_of texts3)).
  - reflexivity.
  - discriminate.
  - reflexivity.
Defined.

(** X8: when the scoring call returns, the (document, score) pairs are put
    in an order in which no pair is directly followed by one with a higher
    score, and [rerank] returns the documents of the first [top_k] pairs of
    that order. *)
Theorem X8_rerank_descending (C : collaborators) self query docs top_k w scores :
  available self = true -> docs <> [] ->
  model_predict C (trace w) (pairs_of query docs w) = Ret scores ->
  exists sorted,
    Permutation sorted (zip docs scores) /\
    Sorted not_below sorted /\
    fst (rerank C self query docs top_k w) = Ret (map fst (slice_to top_k sorted)).
Proof.
  intros Ha Hne Hp. exists (sort_desc score_lt (zip docs scores)).
  split; [apply sort_desc_perm|]. split; [apply sort_score_sorted|].
  apply rerank_scored; assumption.
Qed.

Lemma X8_witness :
  exists sorted,
    Permutation sorted (zip [0; 1; 2] [1.5; 2.5; 0.5]%float) /\
    Sorted not_below sorted /\
    fst (rerank (scripted [] Raise (Ret [1.5; 2.5; 0.5]%float) []) (mkCrossEncoder true) "q"
           [0; 1; 2] 2 (world_of texts3)) = Ret (map fst (slice_to 2 sorted)).
Proof.
  apply (X8_rerank_descending (scripted [] Raise (Ret [1.5; 2.5; 0.5]%float) [])
           (mkCrossEncoder true) "q" [0; 1; 2] 2 (world_of texts3)).
  - reflexivity.
  - discriminate.
  - reflexivity.
Defined.

(** ** The FlashRank stage *)

Module FlashRankFacts.

Lemma index_In {A : Type} (l : list A) i x : index l i = Some x -> In x l.
Proof.
  unfold index. rewrite <- list_elem_of_In.
  destruct (0 <=? i)%Z; [apply list_elem_of_lookup_2|].
  destruct (- Z.of_nat (length l) <=? i)%Z; [apply list_elem_of_lookup_2 | discriminate].
Qed.

Lemma index_None {A : Type} (l : list A) i :
  index l i = None <-> (i < - Z.of_nat (length l) \/ Z.of_nat (length l) <= i)%Z.
Proof.
  unfold index. destruct (0 <=? i)%Z eqn:E0.
  - apply Z.leb_le in E0. rewrite lookup_ge_None. lia.
  - apply Z.leb_gt in E0. destruct (- Z.of_nat (length l) <=? i)%Z eqn:E1.
    + apply Z.leb_le in E1. rewrite lookup_ge_None. lia.
    + apply Z.leb_gt in E1. split; [lia | reflexivity].
Qed.

(** Picking the documents at a list of indices: all of them, or an
    [IndexError] at the first index out of range.  The world is not touched. *)
Lemma mapM_pick_run docs ids w :
  (exists l, mapM (pick docs) ids w = (Ret l, w) /\
             Forall2 (fun i d => index docs i = Some d) ids l) \/
  (mapM (pick docs) ids w = (Raise, w) /\ exists i, In i ids /\ index docs i = None).
Proof.
  induction ids as [|i ids IH].
  - left. exists []. split; [reflexivity | constructor].
  - cbn [mapM]. destruct (index docs i) as [d|] eqn:Ei.
    + assert (Hr : pick docs i w = (Ret d, w)) by (unfold pick; rewrite Ei; reflexivity).
      rewrite (bind_run _ _ _ _ _ Hr).
      destruct IH as [(l & Hrun & Hall)|(Hrun & j & Hj & Hnone)].
      * left. exists (d :: l). rewrite (bind_run _ _ _ _ _ Hrun).
        split; [reflexivity | constructor; assumption].
      * right. rewrite (bind_raise _ _ _ _ Hrun). split; [reflexivity|].
        exists j. split; [right; exact Hj | exact Hnone].
    + assert (Hr : pick docs i w = (Raise, w)) by (unfold pick; rewrite Ei; reflexivity).
      right. rewrite (bind_raise _ _ _ _ Hr). split; [reflexivity|].
      exists i. split; [left; reflexivity | exact Ei].
Qed.

Lemma Forall2_index_In (docs : list loc) ids picked :
  Forall2 (fun i d => index docs i = Some d) ids picked ->
  forall d, In d picked -> In d docs.
Proof.
  induction 1 as [|i d ids picked Hi _ IH]; intros x Hx; [destruct Hx|].
  destruct Hx as [<-|Hx]; [eapply index_In; exact Hi | apply IH, Hx].
Qed.

Section FlashRank.
Variable C : collaborators.

(** The ways [_flashrank_rerank] can go. *)
Lemma flashrank_cases self query docs top_k w :
  let w1 := record (EvFlashRank query (passages_of docs w)) w in
  (flashrank self = false /\ _flashrank_rerank C self query docs top_k w = (Ret docs, w))
  \/
  (flashrank self = true /\
   flashrank_rerank C (trace w) query (passages_of docs w) = Raise /\
   _flashrank_rerank C self query docs top_k w = (Ret (slice_to top_k docs), w1))
  \/
  (exists ids, flashrank self = true /\
     flashrank_rerank C (trace w) query (passages_of docs w) = Ret ids /\
     ((exists i, In i (slice_to top_k ids) /\ index docs i = None) /\
        _flashrank_rerank C self query docs top_k w = (Ret (slice_to top_k docs), w1)
      \/
      exists picked,
        Forall2 (fun i d => index docs i = Some d) (slice_to top_k ids) picked /\
        _flashrank_rerank C self query docs top_k w = (Ret picked, w1))).
Proof.
  intros w1. destruct (flashrank self) eqn:Hf.
  2:{ left. split; [reflexivity|]. unfold _flashrank_rerank. rewrite Hf. reflexivity. }
  right.
  destruct (flashrank_rerank C (trace w) query (passages_of docs w)) as [ids|] eqn:Hr.
  - right. exists ids. split; [reflexivity|]. split; [reflexivity|].
    assert (Hg : gets (passages_of docs) w = (Ret (passages_of docs w), w)) by reflexivity.
    assert (Hc : call_flashrank C query (passages_of docs w) w = (Ret ids, w1)).
    { unfold call_flashrank. rewrite Hr. reflexivity. }
    unfold _flashrank_rerank. rewrite Hf. cbn [negb].
    destruct (mapM_pick_run docs (slice_to top_k ids) w1)
      as [(l & Hrun & Hall)|(Hrun & Hbad)].
    + right. exists l. split; [exact Hall|].
      apply try_except_run. rewrite (bind_run _ _ _ _ _ Hg), (bind_run _ _ _ _ _ Hc).
      exact Hrun.
    + left. split; [exact Hbad|].
      erewrite try_except_raise; [reflexivity|].
      rewrite (bind_run _ _ _ _ _ Hg), (bind_run _ _ _ _ _ Hc). exact Hrun.
  - left. split; [reflexivity|]. split; [reflexivity|].
    apply flashrank_raises_run; assumption.
Qed.


Lemma flashrank_returns self query docs top_k w :
  exists result w',
    _flashrank_rerank C self query docs top_k w = (Ret result, w') /\
    heap w' = heap w /\
    (forall d, In d result -> In d docs) /\
    (flashrank self = false -> result = docs /\ w' = w) /\
    (flashrank self = true ->
       trace w' = (trace w ++ [EvFlashRank query (passages_of docs w)])%list /\
       ((0 <= top_k)%Z -> length result <= Z.to_nat top_k)).
Proof.
  destruct (flashrank_cases self query docs top_k w)
    as [[Hf H]|[(Hf & _ & H)|(ids & Hf & _ & [[_ H]|(picked & Hall & H)])]];
    rewrite H; eexists _, _; (split; [reflexivity|]); (split; [reflexivity|]).
  - split; [auto|]. split; [auto | congruence].
  - split; [intros d; apply FilterFacts.slice_to_In|]. split; [congruence|].
    intros _. split; [reflexivity | apply RerankFacts.slice_to_length_nonneg].
  - split; [intros d; apply FilterFacts.slice_to_In|]. split; [congruence|].
    intros _. split; [reflexivity | apply RerankFacts.slice_to_length_nonneg].
  - split; [apply (Forall2_index_In docs _ _ Hall)|]. split; [congruence|].
    intros _. split; [reflexivity|]. intros Hk.
    rewrite <- (Forall2_length _ _ _ Hall). apply RerankFacts.slice_to_length_nonneg, Hk.
Qed.

End FlashRank.
End FlashRankFacts.
Import FlashRankFacts.

(** X9: [_flashrank_rerank] never raises, whatever the model does: it
    always returns a list, every returned document is one of the input
    documents, and the store is left as it was.  When the model is not
    loaded it returns the input itself and makes no call; when it is loaded
    it makes exactly one model call and, for [top_k >= 0], returns at most
    [top_k] documents. *)
Theorem X9_flashrank_never_raises (C : collaborators) self query docs top_k w :
  exists result w',
    _flashrank_rerank C self query docs top_k w = (Ret result, w') /\
    heap w' = heap w /\
    (forall d, In d result -> In d docs) /\
    (flashrank self = false -> result = docs /\ w' = w) /\
    (flashrank self = true ->
       trace w' = (trace w ++ [EvFlashRank query (passages_of docs w)])%list /\
       ((0 <= top_k)%Z -> length result <= Z.to_nat top_k)).
Proof. apply flashrank_returns. Qed.

(** X10: when the FlashRank call returns, the stage returns the documents
    at the ids of the first [top_k] results, in that order (a negative id
    counting from the end, as Python indexing does); but if one of those ids
    is out of range, the [IndexError] is caught and the stage returns
    [docs[:top_k]] instead.  Ids after the first [top_k] results are never
    looked at. *)
Theorem X10_flashrank_picks_by_id (C : collaborators) self query docs top_k w ids :
  flashrank self = true ->
  flashrank_rerank C (trace w) query (passages_of docs w) = Ret ids ->
  ((forall i, In i (slice_to top_k ids) ->
      (- Z.of_nat (length docs) <= i < Z.of_nat (length docs))%Z) ->
   exists picked,
     fst (_flashrank_rerank C self query docs top_k w) = Ret picked /\
     Forall2 (fun i d => index docs i = Some d) (slice_to top_k ids) picked) /\
  ((exists i, In i (slice_to top_k ids) /\
      (i < - Z.of_nat (length docs) \/ Z.of_nat (length docs) <= i)%Z) ->
   fst (_flashrank_rerank C self query docs top_k w) = Ret (slice_to top_k docs)).
Proof.
  intros Hf Hr.
  destruct (flashrank_cases C self query docs top_k w)
    as [[Hf' _]|[(_ & Hr' & _)|(ids' & _ & Hr' & Hcases)]]; try congruence.
  rewrite Hr in Hr'. injection Hr' as <-.
  destruct Hcases as [[(i & Hi & Hnone) H]|(picked & Hall & H)]; rewrite H; cbn [fst]; split.
  - intros Hin. specialize (Hin i Hi). apply index_None in Hnone. lia.
  - reflexivity.
  - intros _. exists picked. split; [reflexivity | exact Hall].
  - intros (i & Hi & Hout). exfalso. apply index_None in Hout.
    clear H. induction Hall as [|j d js ds Hj _ IH]; [destruct Hi|].
    destruct Hi as [->|Hi]; [congruence | apply IH, Hi].
Qed.

Lemma X10_witness :
  ((forall i, In i (slice_to 2 [2; 0; 7]%Z) ->
      (- Z.of_nat (length [0; 1; 2]) <= i < Z.of_nat (length [0; 1; 2]))%Z) ->
   exists picked,
     fst (_flashrank_rerank (scripted [] (Ret [2; 0; 7]%Z) Raise [])
            (mkEngine true (mkCrossEncoder true) 3) "q" [0; 1; 2] 2 (world_of texts3))
       = Ret picked /\
     Forall2 (fun i d => index [0; 1; 2] i = Some d) (slice_to 2 [2; 0; 7]%Z) picked) /\
  ((exists i, In i (slice_to 2 [2; 0; 7]%Z) /\
      (i < - Z.of_nat (length [0; 1; 2]) \/ Z.of_nat (length [0; 1; 2]) <= i)%Z) ->
   fst (_flashrank_rerank (scripted [] (Ret [2; 0; 7]%Z) Raise [])
          (mkEngine true (mkCrossEncoder true) 3) "q" [0; 1; 2] 2 (world_of texts3))
     = Ret (slice_to 2 [0; 1; 2])).
Proof.
  apply (X10_flashrank_picks_by_id (scripted [] (Ret [2; 0; 7]%Z) Raise [])
           (mkEngine true (mkCrossEncoder true) 3) "q" [0; 1; 2] 2 (world_of texts3)
           [2; 0; 7]%Z).
  - reflexivity.
  - reflexivity.
Defined.

(** The stage on the ids 2, 0, 7: the first two are picked, the id out of
    range is beyond [top_k]; with [top_k = 3] it is reached and the stage
    falls back to the input. *)
Example flashrank_picks :
  fst (_flashrank_rerank (scripted [] (Ret [2; 0; 7]%Z) Raise [])
         (mkEngine true (mkCrossEncoder true) 3) "q" [0; 1; 2] 2 (world_of texts3))
    = Ret [2; 0] /\
  fst (_flashrank_rerank (scripted [] (Ret [2; 0; 7]%Z) Raise [])
         (mkEngine true (mkCrossEncoder true) 3) "q" [0; 1; 2] 3 (world_of texts3))
    = Ret [0; 1; 2].
Proof. split; vm_compute; reflexivity. Qed.

(** ** The engine *)

Module EngineFacts.

Section Retrieve.
Variable C : collaborators.

(** [retrieve] with both reranking stages left out. *)
Lemma retrieve_plain self query category top_k use_rerank use_parent w :
  use_rerank = false \/ (flashrank self = false /\ available (cross_encoder self) = false) ->
  retrieve C self query category top_k use_rerank use_parent w =
    (let* docs := call_search C query category top_k in
     if is_nil docs then ret []
     else let* docs := (if use_parent then call_expand C docs else ret docs) in ret docs) w.
Proof.
  intros [->|[Hf Ha]]; unfold retrieve.
  - reflexivity.
  - rewrite Hf, Ha. destruct use_rerank; reflexivity.
Qed.

Lemma search_cases query category top_k w :
  call_search C query category top_k w =
    (fst (retriever_invoke C w query category top_k), searched C query category top_k w).
Proof. apply call_search_run. Qed.

Lemma retrieve_bound self query category top_k w found result w' :
  available (cross_encoder self) = true -> (1 <= top_k_rerank self)%Z ->
  fst (retriever_invoke C w query category top_k) = Ret found ->
  retrieve C self query category top_k true false w = (Ret result, w') ->
  length result <= Z.to_nat (top_k_rerank self) /\
  forall d, In d result -> In d found.
Proof.
  intros Ha Hk Hs Hrun. unfold retrieve in Hrun.
  pose proof (search_cases query category top_k w) as Hc. rewrite Hs in Hc.
  rewrite (bind_run _ _ _ _ _ Hc) in Hrun.
  destruct found as [|d0 found]; cbn [is_nil] in Hrun.
  { injection Hrun as <- _. split; [cbn; lia | intros d []]. }
  set (w1 := searched C query category top_k w) in *.
  set (docs0 := d0 :: found) in *.
  assert (Hstage1 : exists docs1 w2,
            (if true && flashrank self && (1 <? length docs0)%nat
             then _flashrank_rerank C self query docs0 5
             else ret docs0) w1 = (Ret docs1, w2) /\
            forall d, In d docs1 -> In d docs0).
  { destruct (true && flashrank self && (1 <? length docs0)%nat).
    - destruct (FlashRankFacts.flashrank_returns C self query docs0 5 w1)
        as (r & w2 & H & _ & Hin & _).
      exists r, w2. split; assumption.
    - exists docs0, w1. split; [reflexivity | auto]. }
  destruct Hstage1 as (docs1 & w2 & H1 & Hin1).
  rewrite (bind_run _ _ _ _ _ H1) in Hrun. rewrite Ha in Hrun. cbn [andb] in Hrun.
  destruct (1 <? length docs1)%nat eqn:Hlen.
  - destruct (rerank C (cross_encoder self) query docs1 (top_k_rerank self) w2)
      as [[r|] w3] eqn:H2.
    + rewrite (bind_run _ _ _ _ _ H2) in Hrun. cbn in Hrun. injection Hrun as <- _.
      destruct (RerankFacts.rerank_returns C _ _ _ _ _ _ _ H2) as (Hin2 & _ & Hk2).
      split; [apply Hk2; lia | auto].
    + rewrite (bind_raise _ _ _ _ H2) in Hrun. discriminate.
  - cbn in Hrun. injection Hrun as <- _. apply Nat.ltb_ge in Hlen.
    split; [lia | exact Hin1].
Qed.

End Retrieve.
End EngineFacts.
Import EngineFacts.

(** X11: an engine whose constructor could load neither model (the library
    is missing or loading raised), and any engine called with
    [use_rerank = False], retrieves by searching and, if asked, expanding to
    parents: no reranking model is called and nothing is raised by a
    reranking stage. *)
Theorem X11_degrades_to_plain_search (C : collaborators)
    FLASHRANK_AVAILABLE load_ranker CROSS_ENCODER_AVAILABLE load_cross_encoder rag_top_k_rerank
    query category top_k use_rerank use_parent w :
  use_rerank = false \/
  ((FLASHRANK_AVAILABLE = false \/ load_ranker = Raise) /\
   (CROSS_ENCODER_AVAILABLE = false \/ load_cross_encoder = Raise)) ->
  retrieve C (RetrievalEngine_init FLASHRANK_AVAILABLE load_ranker
                CROSS_ENCODER_AVAILABLE load_cross_encoder rag_top_k_rerank)
           query category top_k use_rerank use_parent w =
    (let* docs := call_search C query category top_k in
     if is_nil docs then ret []
     else let* docs := (if use_parent then call_expand C docs else ret docs) in ret docs) w.
Proof.
  intros H. apply retrieve_plain. destruct H as [H|[Hf Hc]]; [left; exact H|].
  right. split.
  - cbn. destruct Hf as [-> | ->]; [reflexivity|]. destruct FLASHRANK_AVAILABLE; reflexivity.
  - cbn. unfold CrossEncoderReranker_init.
    destruct Hc as [-> | ->]; [reflexivity|]. destruct CROSS_ENCODER_AVAILABLE; reflexivity.
Qed.

Lemma X11_witness :
  retrieve (scripted [0; 1; 2] (Ret [2; 0]%Z) (Ret [1.5; 2.5; 0.5]%float) [])
           (RetrievalEngine_init true Raise false (Ret tt) 3)
           "q" None 10 true true (world_of texts3) =
    (let* docs := call_search (scripted [0; 1; 2] (Ret [2; 0]%Z) (Ret [1.5; 2.5; 0.5]%float) [])
                    "q" None 10 in
     if is_nil docs then ret []
     else let* docs := (if true
                        then call_expand (scripted [0; 1; 2] (Ret [2; 0]%Z)
                                            (Ret [1.5; 2.5; 0.5]%float) []) docs
                        else ret docs) in ret docs) (world_of texts3).
Proof.
  apply (X11_degrades_to_plain_search
           (scripted [0; 1; 2] (Ret [2; 0]%Z) (Ret [1.5; 2.5; 0.5]%float) [])
           true Raise false (Ret tt) 3 "q" None 10 true true (world_of texts3)).
  right. split; [right; reflexivity | left; reflexivity].
Defined.

(** X12: [similarity_search] is [retrieve] with reranking and parent
    expansion switched off: both make the one search call and return what it
    returned (or raise what it raised), for every engine. *)
Theorem X12_similarity_search_is_plain_retrieve (C : collaborators) self category query k w :
  retrieve C self query category k false false w = similarity_search C category query k w.
Proof.
  unfold similarity_search. rewrite retrieve_plain by (left; reflexivity).
  destruct (call_search C query category k w) as [[docs|] w1] eqn:E.
  - rewrite (bind_run _ _ _ _ _ E). destruct docs; reflexivity.
  - rewrite (bind_raise _ _ _ _ E). reflexivity.
Qed.

(** X13: with reranking on, the cross-encoder available, a configured
    width [top_k_rerank >= 1] and no parent expansion, whenever [retrieve]
    returns it returns at most [top_k_rerank] documents, and each of them is
    one the search found. *)
Theorem X13_retrieve_width (C : collaborators) self query category top_k w found result w' :
  available (cross_encoder self) = true -> (1 <= top_k_rerank self)%Z ->
  fst (retriever_invoke C w query category top_k) = Ret found ->
  retrieve C self query category top_k true false w = (Ret result, w') ->
  length result <= Z.to_nat (top_k_rerank self) /\
  forall d, In d result -> In d found.
Proof. apply retrieve_bound. Qed.

Lemma X13_witness :
  length [0; 2] <= Z.to_nat (top_k_rerank (mkEngine true (mkCrossEncoder true) 2)) /\
  forall d, In d [0; 2] -> In d [0; 1; 2].
Proof.
  apply (X13_retrieve_width
           (scripted [0; 1; 2] (Ret [2; 0; 1]%Z) (Ret [1.5; 2.5; 0.5]%float) [])
           (mkEngine true (mkCrossEncoder true) 2) "q" None 10 (world_of texts3)
           [0; 1; 2] [0; 2]
           (snd (retrieve (scripted [0; 1; 2] (Ret [2; 0; 1]%Z) (Ret [1.5; 2.5; 0.5]%float) [])
                   (mkEngine true (mkCrossEncoder true) 2) "q" None 10 true false
                   (world_of texts3)))).
  - reflexivity.
  - cbn. lia.
  - reflexivity.
  - apply run_fst. vm_compute. reflexivity.
Defined.

(** X14: a reranker whose constructor found the library missing, or whose
    model failed to load, is unavailable, and its [rerank] hands back
    [docs[:top_k]] without calling the model or touching a document; a
    reranker whose model loaded is available. *)
Theorem X14_failed_load_disables_rerank (C : collaborators)
    CROSS_ENCODER_AVAILABLE load query docs top_k w :
  (CROSS_ENCODER_AVAILABLE = false \/ load = Raise ->
   is_available (CrossEncoderReranker_init CROSS_ENCODER_AVAILABLE load) = false /\
   rerank C (CrossEncoderReranker_init CROSS_ENCODER_AVAILABLE load) query docs top_k w =
     (Ret (slice_to top_k docs), w)) /\
  (CROSS_ENCODER_AVAILABLE = true -> load = Ret tt ->
   is_available (CrossEncoderReranker_init CROSS_ENCODER_AVAILABLE load) = true).
Proof.
  split.
  - intros H.
    assert (Ha : available (CrossEncoderReranker_init CROSS_ENCODER_AVAILABLE load) = false).
    { unfold CrossEncoderReranker_init.
      destruct H as [-> | ->]; [reflexivity|]. destruct CROSS_ENCODER_AVAILABLE; reflexivity. }
    split; [exact Ha|]. apply rerank_skips. left. exact Ha.
  - intros -> ->. reflexivity.
Qed.

(** ** A score of 60 always passes *)

Lemma scaled_mean_le_60 S n :
  (0 < n)%Z -> (0 <= S <= n * 100)%Z -> (scaled_mean S n <= 60)%Q.
Proof.
  intros Hn HS. unfold scaled_mean, Float64.fmul, Float64.true_div.
  destruct (mean_bounds S n 0 100 Hn ltac:(lia)) as [Ha0 Ha1].
  change (inject_Z 0) with 0%Q in Ha0. change (inject_Z 100) with 100%Q in Ha1.
  pose proof (Float64Facts.round64_nonneg _ Ha0) as HA.
  pose proof (Float64Facts.round64_mono _ _ Ha0 Ha1) as HA1.
  change 100%Q with (inject_Z 100) in HA1.
  rewrite (Float64Facts.round64_Z 100) in HA1 by lia. change (inject_Z 100) with 100%Q in HA1.
  change 60%Q with (inject_Z 60). rewrite <- (Float64Facts.round64_Z 60) by lia.
  apply Float64Facts.round64_mono; unfold Float64.c06; change (inject_Z 60) with 60%Q; lra.
Qed.

(** X15: whatever the other documents score, a document whose score is at
    least 60 and at least [min_score] is returned by [filter_documents]:
    the mean of scores in [0, 100] is at most 100, so the dynamic threshold
    never exceeds max(min_score, 60). *)
Theorem X15_score_60_is_kept (C : collaborators) query docs min_score w :
  docs <> [] ->
  exists scored result w',
    score_documents C query docs w = (Ret scored, w') /\
    filter_documents C query docs min_score w = (Ret result, w') /\
    (dynamic_threshold min_score scored <= Float64.max_int_float min_score 60)%Q /\
    (forall d s, In (d, s) scored -> (60 <= s)%Z -> (min_score <= s)%Z -> In d result).
Proof.
  intros Hne.
  destruct (filter_documents_run C query docs min_score w Hne)
    as (scored & w' & Hrun & Hfst & Hrange & Hres).
  assert (Hsc : scored <> []) by (intros ->; cbn in Hfst; congruence).
  assert (Hn : (0 < Z.of_nat (length scored))%Z) by (destruct scored; [congruence | cbn; lia]).
  assert (HT : (scaled_mean (sum (map snd scored)) (Z.of_nat (length scored)) <= 60)%Q).
  { apply scaled_mean_le_60; [exact Hn|]. pose proof (sum_bounds 0 100 scored Hrange). lia. }
  exists scored, (select_documents min_score scored), w'.
  split; [exact Hrun|]. split; [exact Hres|]. split.
  - rewrite dynamic_threshold_eq. apply max_int_float_mono, HT.
  - intros d s Hin H60 Hm.
    assert (Hpass : Float64.int_ge s (dynamic_threshold min_score scored) = true).
    { apply int_ge_true. rewrite dynamic_threshold_eq. apply max_int_float_lub.
      rewrite Zle_Qle in H60, Hm. change (inject_Z 60) with 60%Q in H60. split; lra. }
    assert (Hkept : In d (filter_by_threshold min_score scored)).
    { unfold filter_by_threshold. apply (in_map fst _ (d, s)). apply List.filter_In.
      split; [exact Hin | exact Hpass]. }
    rewrite select_documents_kept; [exact Hkept|].
    intros E. rewrite E in Hkept. destruct Hkept.
Qed.

Lemma X15_witness :
  exists scored result w',
    score_documents (oracle ["100"; "0"; "0"]) "q" [0; 1; 2] (world_of texts3) = (Ret scored, w') /\
    filter_documents (oracle ["100"; "0"; "0"]) "q" [0; 1; 2] 25 (world_of texts3) = (Ret result, w') /\
    (dynamic_threshold 25 scored <= Float64.max_int_float 25 60)%Q /\
    (forall d s, In (d, s) scored -> (60 <= s)%Z -> (25 <= s)%Z -> In d result).
Proof.
  apply (X15_score_60_is_kept (oracle ["100"; "0"; "0"]) "q" [0; 1; 2] 25 (world_of texts3)).
  discriminate.
Defined.
